(** * The lazily initialised settings facade of llama_index

    A shallow embedding of [llama_index/settings.py] (the [_Settings]
    dataclass, its properties and the [*_from_settings_or_context]
    helpers) and of the union declared in
    [configured_transformation_item_component_one.py].

    Python objects live in a store and are handled through references;
    the properties of [_Settings] are computations in a state-and-exception
    monad over the settings record, the store and the module globals.
    The collaborators the module imports ([resolve_llm], [SentenceSplitter],
    [PromptHelper], ...) are not part of the module: they are taken as an
    interface, and every theorem holds for all implementations of it. *)

From Stdlib Require Import ZArith.
From stdpp Require Import gmap strings list fin_maps finite.

Open Scope Z_scope.
Open Scope string_scope.
Open Scope list_scope.

(** ** Python values and the object store *)

Definition loc := positive.

Inductive value :=
  | VNone
  | VInt (n : Z)
  | VStr (s : string)
  | VRef (l : loc).

#[global] Instance value_eq_dec : EqDecision value.
Proof. solve_decision. Defined.

(** An instance carries its attribute dictionary; a list carries its items. *)
Inductive object :=
  | Obj (attrs : gmap string value)
  | Lst (items : list value).

(** The part of the Python process outside the settings record: the object
    store and the two globals of the [llama_index] package that
    [global_handler], [get_tokenizer] and [set_global_tokenizer] work on. *)
Record Env := mkEnv {
  heap : gmap loc object;
  global_handler : value;
  global_tokenizer : value
}.

Definition with_heap (h : gmap loc object) (e : Env) : Env :=
  {| heap := h; global_handler := global_handler e;
     global_tokenizer := global_tokenizer e |}.

Definition attrs_of (o : object) : gmap string value :=
  match o with
  | Obj a => a
  | Lst _ => ∅
  end.

(** [obj.name], when [obj] has that attribute. *)
Definition lookup_attr (e : Env) (v : value) (name : string) : option value :=
  match v with
  | VRef l => o ← heap e !! l; attrs_of o !! name
  | _ => None
  end.

(** [obj.name = x], when [obj] is an instance: the store with the attribute
    written in place.  [None], a number, a string or a list take no
    attribute.  An instance takes any attribute: a class that refuses some
    assignments is not told apart. *)
Definition store_attr (e : Env) (v : value) (name : string) (x : value)
  : option Env :=
  match v with
  | VRef l =>
      match heap e !! l with
      | Some (Obj a) =>
          Some (with_heap (<[l := Obj (<[name := x]> a)]> (heap e)) e)
      | _ => None
      end
  | _ => None
  end.

(** ** Exceptions *)

(** [ValueError] is raised by the module itself, [AttributeError] by a failed
    attribute access; [UnsupportedOperation] is the class the specification
    names for the chunk-size and chunk-overlap failures. *)
Inductive exn_class :=
  | ValueError
  | AttributeError
  | UnsupportedOperation.

#[global] Instance exn_class_eq_dec : EqDecision exn_class.
Proof. solve_decision. Defined.

Record exn := mkExn { exn_cls : exn_class; exn_msg : string }.

Inductive outcome (A : Type) :=
  | Ok (a : A)
  | Raise (e : exn).
Arguments Ok {A} a.
Arguments Raise {A} e.

(** ** The settings record *)

Record _Settings := mkSettings {
  _llm : option loc;
  _embed_model : option loc;
  _callback_manager : option loc;
  _tokenizer : option loc;
  _node_parser : option loc;
  _prompt_helper : option loc;
  _transformations : option loc
}.

(** [_Settings()]: every field is [None]. *)
Definition Settings : _Settings :=
  mkSettings None None None None None None None.

Inductive field :=
  | F_llm
  | F_embed_model
  | F_callback_manager
  | F_tokenizer
  | F_node_parser
  | F_prompt_helper
  | F_transformations.

#[global] Instance field_eq_dec : EqDecision field.
Proof. solve_decision. Defined.

Definition all_fields : list field :=
  [F_llm; F_embed_model; F_callback_manager; F_tokenizer; F_node_parser;
   F_prompt_helper; F_transformations].

(** [self._f] *)
Definition slot (f : field) (r : _Settings) : option loc :=
  match f with
  | F_llm => _llm r
  | F_embed_model => _embed_model r
  | F_callback_manager => _callback_manager r
  | F_tokenizer => _tokenizer r
  | F_node_parser => _node_parser r
  | F_prompt_helper => _prompt_helper r
  | F_transformations => _transformations r
  end.

(** [self._f = v] *)
Definition assign (f : field) (v : option loc) (r : _Settings) : _Settings :=
  match f with
  | F_llm =>
      mkSettings v (_embed_model r) (_callback_manager r) (_tokenizer r)
                 (_node_parser r) (_prompt_helper r) (_transformations r)
  | F_embed_model =>
      mkSettings (_llm r) v (_callback_manager r) (_tokenizer r)
                 (_node_parser r) (_prompt_helper r) (_transformations r)
  | F_callback_manager =>
      mkSettings (_llm r) (_embed_model r) v (_tokenizer r)
                 (_node_parser r) (_prompt_helper r) (_transformations r)
  | F_tokenizer =>
      mkSettings (_llm r) (_embed_model r) (_callback_manager r) v
                 (_node_parser r) (_prompt_helper r) (_transformations r)
  | F_node_parser =>
      mkSettings (_llm r) (_embed_model r) (_callback_manager r) (_tokenizer r)
                 v (_prompt_helper r) (_transformations r)
  | F_prompt_helper =>
      mkSettings (_llm r) (_embed_model r) (_callback_manager r) (_tokenizer r)
                 (_node_parser r) v (_transformations r)
  | F_transformations =>
      mkSettings (_llm r) (_embed_model r) (_callback_manager r) (_tokenizer r)
                 (_node_parser r) (_prompt_helper r) v
  end.

(** What [return self._f] hands back. *)
Definition to_value (o : option loc) : value :=
  match o with
  | Some l => VRef l
  | None => VNone
  end.

(** ** Calls to the imported collaborators *)

(** Each call the module makes to imported code, with its arguments, and the
    one list display [[self.node_parser]] it evaluates.  The list of calls
    made so far is kept next to the state, so that "the default is not
    computed again" can be stated. *)
Inductive call :=
  | call_resolve_llm (name : string)
  | call_resolve_embed_model (name : string)
  | call_CallbackManager
  | call_get_tokenizer
  | call_SentenceSplitter
  | call_PromptHelper
  | call_PromptHelper_from_llm_metadata (metadata : value)
  | call_set_global_tokenizer (tokenizer : value)
  | call_set_global_handler (eval_mode : string)
  | call_list_display (items : list value).

#[global] Instance call_eq_dec : EqDecision call.
Proof. solve_decision. Defined.

(** The field whose default rule a call belongs to, if any. *)
Definition default_rule_of (c : call) : option field :=
  match c with
  | call_resolve_llm _ => Some F_llm
  | call_resolve_embed_model _ => Some F_embed_model
  | call_CallbackManager => Some F_callback_manager
  | call_get_tokenizer => Some F_tokenizer
  | call_SentenceSplitter => Some F_node_parser
  | call_PromptHelper => Some F_prompt_helper
  | call_PromptHelper_from_llm_metadata _ => Some F_prompt_helper
  | call_set_global_tokenizer _ => None
  | call_set_global_handler _ => None
  | call_list_display _ => Some F_transformations
  end.

(** The imported functions and constructors.  Each may read and change the
    store and the globals; none of them holds the settings record.  They are
    taken by what they hand back: a call that raises instead (no model can be
    resolved, a handler mode is unknown) is outside this interface. *)
Class Collaborators := {
  resolve_llm : string → Env → loc * Env;
  resolve_embed_model : string → Env → loc * Env;
  CallbackManager : Env → loc * Env;
  get_tokenizer : Env → loc * Env;
  SentenceSplitter : Env → loc * Env;
  PromptHelper : Env → loc * Env;
  PromptHelper_from_llm_metadata : value → Env → loc * Env;
  set_global_tokenizer : value → Env → Env;
  set_global_handler : string → Env → Env
}.

(** ** The monad of property bodies *)

Record state := mkState {
  self : _Settings;
  env : Env;
  trace : list call
}.

Definition M (A : Type) : Type := state → outcome A * state.

#[global] Instance M_ret : MRet M := λ A a s, (Ok a, s).

#[global] Instance M_bind : MBind M := λ A B k m s,
  match m s with
  | (Ok a, s') => k a s'
  | (Raise e, s') => (Raise e, s')
  end.

Definition raise {A} (c : exn_class) (msg : string) : M A :=
  λ s, (Raise (mkExn c msg), s).

Definition rd (f : field) : M (option loc) :=
  λ s, (Ok (slot f (self s)), s).

Definition wr (f : field) (v : option loc) : M unit :=
  λ s, (Ok (), mkState (assign f v (self s)) (env s) (trace s)).

(** A call to a collaborator that returns an object. *)
Definition extern (c : call) (body : Env → loc * Env) : M loc :=
  λ s, let '(l, e) := body (env s) in
       (Ok l, mkState (self s) e (trace s ++ [c])).

(** A call to a collaborator that returns nothing. *)
Definition extern_ (c : call) (body : Env → Env) : M unit :=
  λ s, (Ok (), mkState (self s) (body (env s)) (trace s ++ [c])).

Definition hasattr (v : value) (name : string) : M bool :=
  λ s, (Ok (bool_decide (is_Some (lookup_attr (env s) v name))), s).

Definition getattr (v : value) (name : string) : M value :=
  λ s, match lookup_attr (env s) v name with
       | Some x => (Ok x, s)
       | None => (Raise (mkExn AttributeError name), s)
       end.

Definition setattr (v : value) (name : string) (x : value) : M unit :=
  λ s, match store_attr (env s) v name x with
       | Some e => (Ok (), mkState (self s) e (trace s))
       | None => (Raise (mkExn AttributeError name), s)
       end.

(** A list display [[x]]: a new list object. *)
Definition fresh_loc (e : Env) : loc := fresh (dom (heap e)).

Definition new_list (items : list value) : M loc :=
  λ s, let l := fresh_loc (env s) in
       (Ok l, mkState (self s)
                      (with_heap (<[l := Lst items]> (heap (env s))) (env s))
                      (trace s ++ [call_list_display items])).

Definition read_global_handler : M value :=
  λ s, (Ok (global_handler (env s)), s).

(** ** The properties of [_Settings] *)

Section Facade.
Context {X : Collaborators}.

(** A setter stores what it is given, whatever it is: the value assigned is
    an object ([Some l]) or [None], and no setter looks at it. *)

(** The shape shared by the plain lazy getters:
    [if self._f is None: self._f = <default>] then [return self._f]. *)
Definition lazy_default (f : field) (c : call) (body : Env → loc * Env)
  : M value :=
  cur ← rd f;
  (if cur is None then l ← extern c body; wr f (Some l) else mret ());;
  v ← rd f;
  mret (to_value v).

(** ---- LLM ---- *)

Definition llm : M value :=
  lazy_default F_llm (call_resolve_llm "default") (resolve_llm "default").

Definition set_llm (v : option loc) : M unit := wr F_llm v.

Definition pydantic_program_mode : M value :=
  o ← llm; getattr o "pydantic_program_mode".

Definition set_pydantic_program_mode (mode : value) : M unit :=
  o ← llm; setattr o "pydantic_program_mode" mode.

(** ---- Embedding ---- *)

Definition embed_model : M value :=
  lazy_default F_embed_model (call_resolve_embed_model "default")
               (resolve_embed_model "default").

Definition set_embed_model (v : option loc) : M unit := wr F_embed_model v.

(** ---- Callbacks ---- *)

Definition get_global_handler : M value := read_global_handler.

Definition set_global_handler_ (eval_mode : string) : M unit :=
  extern_ (call_set_global_handler eval_mode) (set_global_handler eval_mode).

Definition callback_manager : M value :=
  lazy_default F_callback_manager call_CallbackManager CallbackManager.

Definition set_callback_manager (v : option loc) : M unit :=
  wr F_callback_manager v.

(** ---- Tokenizer ---- *)

Definition tokenizer : M value :=
  lazy_default F_tokenizer call_get_tokenizer get_tokenizer.

Definition set_tokenizer (v : option loc) : M unit :=
  wr F_tokenizer v;;
  extern_ (call_set_global_tokenizer (to_value v))
          (set_global_tokenizer (to_value v)).

(** ---- Node parser ---- *)

Definition node_parser : M value :=
  lazy_default F_node_parser call_SentenceSplitter SentenceSplitter.

Definition set_node_parser (v : option loc) : M unit := wr F_node_parser v.

Definition chunk_size : M value :=
  p ← node_parser;
  b ← hasattr p "chunk_size";
  if b : bool then q ← node_parser; getattr q "chunk_size"
  else raise ValueError "Configured node parser does not have chunk size.".

Definition set_chunk_size (n : Z) : M unit :=
  p ← node_parser;
  b ← hasattr p "chunk_size";
  if b : bool then q ← node_parser; setattr q "chunk_size" (VInt n)
  else raise ValueError "Configured node parser does not have chunk size.".

Definition chunk_overlap : M value :=
  p ← node_parser;
  b ← hasattr p "chunk_overlap";
  if b : bool then q ← node_parser; getattr q "chunk_overlap"
  else raise ValueError "Configured node parser does not have chunk overlap.".

Definition set_chunk_overlap (n : Z) : M unit :=
  p ← node_parser;
  b ← hasattr p "chunk_overlap";
  if b : bool then q ← node_parser; setattr q "chunk_overlap" (VInt n)
  else raise ValueError "Configured node parser does not have chunk overlap.".

(** ---- Node parser alias ---- *)

Definition text_splitter : M value := node_parser.

Definition set_text_splitter (v : option loc) : M unit := set_node_parser v.

(** ---- Prompt helper ---- *)

Definition prompt_helper : M value :=
  m ← rd F_llm;
  h ← rd F_prompt_helper;
  match m, h with
  | Some l, None =>
      md ← getattr (VRef l) "metadata";
      p ← extern (call_PromptHelper_from_llm_metadata md)
                 (PromptHelper_from_llm_metadata md);
      wr F_prompt_helper (Some p)
  | None, None =>
      p ← extern call_PromptHelper PromptHelper;
      wr F_prompt_helper (Some p)
  | _, Some _ => mret ()
  end;;
  v ← rd F_prompt_helper;
  mret (to_value v).

Definition set_prompt_helper (v : option loc) : M unit :=
  wr F_prompt_helper v.

Definition num_output : M value :=
  p ← prompt_helper; getattr p "num_output".

Definition set_num_output (n : Z) : M unit :=
  p ← prompt_helper; setattr p "num_output" (VInt n).

Definition context_window : M value :=
  p ← prompt_helper; getattr p "context_window".

Definition set_context_window (n : Z) : M unit :=
  p ← prompt_helper; setattr p "context_window" (VInt n).

(** ---- Transformations ---- *)

Definition transformations : M value :=
  cur ← rd F_transformations;
  (if cur is None
   then p ← node_parser; l ← new_list [p]; wr F_transformations (Some l)
   else mret ());;
  v ← rd F_transformations;
  mret (to_value v).

Definition set_transformations (v : option loc) : M unit :=
  wr F_transformations v.

(** ** Helper functions for deprecation/migration *)

(** The [settings] argument is the record of the state; [context] is
    [None] or a reference to a [ServiceContext]. *)

Definition llm_from_settings_or_context (context : option loc) : M value :=
  match context with
  | Some c => getattr (VRef c) "llm"
  | None => llm
  end.

Definition embed_model_from_settings_or_context (context : option loc)
  : M value :=
  match context with
  | Some c => getattr (VRef c) "embed_model"
  | None => embed_model
  end.

Definition callback_manager_from_settings_or_context (context : option loc)
  : M value :=
  match context with
  | Some c => getattr (VRef c) "callback_manager"
  | None => callback_manager
  end.

Definition node_parser_from_settings_or_context (context : option loc)
  : M value :=
  match context with
  | Some c => getattr (VRef c) "node_parser"
  | None => node_parser
  end.

Definition prompt_helper_from_settings_or_context (context : option loc)
  : M value :=
  match context with
  | Some c => getattr (VRef c) "prompt_helper"
  | None => prompt_helper
  end.

Definition transformations_from_settings_or_context (context : option loc)
  : M value :=
  match context with
  | Some c => getattr (VRef c) "transformations"
  | None => transformations
  end.

(** ** The facade as a set of operations *)

Definition getter (f : field) : M value :=
  match f with
  | F_llm => llm
  | F_embed_model => embed_model
  | F_callback_manager => callback_manager
  | F_tokenizer => tokenizer
  | F_node_parser => node_parser
  | F_prompt_helper => prompt_helper
  | F_transformations => transformations
  end.

Definition setter (f : field) (v : option loc) : M unit :=
  match f with
  | F_llm => set_llm v
  | F_embed_model => set_embed_model v
  | F_callback_manager => set_callback_manager v
  | F_tokenizer => set_tokenizer v
  | F_node_parser => set_node_parser v
  | F_prompt_helper => set_prompt_helper v
  | F_transformations => set_transformations v
  end.

(** Every property access the class offers. *)
Inductive op :=
  | OpGet (f : field)
  | OpSet (f : field) (v : option loc)
  | OpGetPydanticProgramMode
  | OpSetPydanticProgramMode (mode : value)
  | OpGetGlobalHandler
  | OpSetGlobalHandler (eval_mode : string)
  | OpGetChunkSize
  | OpSetChunkSize (n : Z)
  | OpGetChunkOverlap
  | OpSetChunkOverlap (n : Z)
  | OpGetTextSplitter
  | OpSetTextSplitter (v : option loc)
  | OpGetNumOutput
  | OpSetNumOutput (n : Z)
  | OpGetContextWindow
  | OpSetContextWindow (n : Z).

(** A setter returns [None]. *)
Definition done_ (m : M unit) : M value := m;; mret VNone.

Definition exec (o : op) : M value :=
  match o with
  | OpGet f => getter f
  | OpSet f v => done_ (setter f v)
  | OpGetPydanticProgramMode => pydantic_program_mode
  | OpSetPydanticProgramMode mode => done_ (set_pydantic_program_mode mode)
  | OpGetGlobalHandler => get_global_handler
  | OpSetGlobalHandler eval_mode => done_ (set_global_handler_ eval_mode)
  | OpGetChunkSize => chunk_size
  | OpSetChunkSize n => done_ (set_chunk_size n)
  | OpGetChunkOverlap => chunk_overlap
  | OpSetChunkOverlap n => done_ (set_chunk_overlap n)
  | OpGetTextSplitter => text_splitter
  | OpSetTextSplitter v => done_ (set_text_splitter v)
  | OpGetNumOutput => num_output
  | OpSetNumOutput n => done_ (set_num_output n)
  | OpGetContextWindow => context_window
  | OpSetContextWindow n => done_ (set_context_window n)
  end.

(** A caller performs accesses one after the other; an exception ends one
    access, not the program, and the state it left is kept. *)
Fixpoint run (os : list op) (s : state) : state :=
  match os with
  | [] => s
  | o :: rest => run rest (exec o s).2
  end.

(** Whether an access assigns to field [f]. *)
Definition assigns (o : op) (f : field) : bool :=
  match o with
  | OpSet g _ => bool_decide (g = f)
  | OpSetTextSplitter _ => bool_decide (f = F_node_parser)
  | _ => false
  end.

End Facade.

(** ** A sample implementation of the collaborators

    Used to run the facade on concrete states.  Every constructor allocates
    a new object; the tokenizer functions share the package global. *)

Module Demo.

Definition alloc (o : object) (e : Env) : loc * Env :=
  let l := fresh_loc e in (l, with_heap (<[l := o]> (heap e)) e).

Definition new_llm (name : string) (e : Env) : loc * Env :=
  let '(m, e1) :=
    alloc (Obj {[ "context_window" := VInt 4096; "num_output" := VInt 512 ]}) e in
  alloc (Obj {[ "metadata" := VRef m;
                "pydantic_program_mode" := VStr name ]}) e1.

Definition new_prompt_helper_from (md : value) (e : Env) : loc * Env :=
  alloc (Obj {[ "context_window" :=
                  default VNone (lookup_attr e md "context_window");
                "num_output" :=
                  default VNone (lookup_attr e md "num_output") ]}) e.

Definition current_tokenizer (e : Env) : loc * Env :=
  match global_tokenizer e with
  | VRef l => (l, e)
  | _ =>
      let '(l, e1) := alloc (Obj ∅) e in
      (l, mkEnv (heap e1) (global_handler e1) (VRef l))
  end.

Definition new_handler (eval_mode : string) (e : Env) : Env :=
  let '(l, e1) := alloc (Obj {[ "eval_mode" := VStr eval_mode ]}) e in
  mkEnv (heap e1) (VRef l) (global_tokenizer e1).

#[export] Instance collaborators : Collaborators := {|
  resolve_llm := new_llm;
  resolve_embed_model := λ name, alloc (Obj {[ "model_name" := VStr name ]});
  CallbackManager := alloc (Obj ∅);
  get_tokenizer := current_tokenizer;
  SentenceSplitter :=
    alloc (Obj {[ "chunk_size" := VInt 1024; "chunk_overlap" := VInt 200 ]});
  PromptHelper :=
    alloc (Obj {[ "context_window" := VInt 3900; "num_output" := VInt 256 ]});
  PromptHelper_from_llm_metadata := new_prompt_helper_from;
  set_global_tokenizer := λ t e, mkEnv (heap e) (global_handler e) t;
  set_global_handler := new_handler
|}.

(** The process right after [Settings = _Settings()]. *)
Definition start : state :=
  mkState Settings (mkEnv ∅ VNone VNone) [].

(** The same, after the user has built a model of their own (not yet
    handed to the facade). *)
Definition user_llm : loc * Env := new_llm "user" (env start).

Definition start_with_user_llm : state :=
  mkState Settings user_llm.2 [].

Definition user_model : loc := user_llm.1.

(** The facade with a node parser of the user's that has neither
    [chunk_size] nor [chunk_overlap]. *)
Definition plain_parser : loc * Env :=
  alloc (Obj {[ "include_metadata" := VInt 1 ]}) (env start).

Definition start_with_plain_parser : state :=
  mkState (assign F_node_parser (Some plain_parser.1) Settings)
          plain_parser.2 [].

(** A [ServiceContext] built by the user, with objects of its own. *)
Definition user_context : loc * Env :=
  let '(a, e1) := alloc (Obj {[ "model" := VStr "context" ]}) (env start) in
  let '(b, e2) := alloc (Lst [VRef a]) e1 in
  alloc (Obj {[ "llm" := VRef a; "embed_model" := VRef a;
                "callback_manager" := VRef a; "node_parser" := VRef a;
                "prompt_helper" := VRef a; "transformations" := VRef b ]}) e2.

Definition start_with_user_context : state :=
  mkState Settings user_context.2 [].

Definition context_ref : loc := user_context.1.

End Demo.

(** ** The union of configured transformation components *)

(** The member classes of
    [ConfiguredTransformationItemComponentOne = typing.Union[...]], in the
    order of the source.  The classes themselves, with their fields, are
    declared in modules of their own; the union adds no decoder or encoder. *)
Inductive transformation_class :=
  | KeywordExtractor
  | TitleExtractor
  | EntityExtractor
  | MarvinMetadataExtractor
  | SummaryExtractor
  | QuestionsAnsweredExtractor
  | SentenceWindowNodeParser
  | HierarchicalNodeParser
  | CodeNodeParser
  | SentenceAwareNodeParser
  | TokenAwareNodeParser
  | HtmlNodeParser
  | MarkdownNodeParser
  | JsonNodeParser
  | SimpleFileNodeParser
  | OpenAiEmbedding
  | HuggingFaceEmbedding.

#[global] Instance transformation_class_eq_dec : EqDecision transformation_class.
Proof. solve_decision. Defined.

Definition ConfiguredTransformationItemComponentOne
  : list transformation_class :=
  [KeywordExtractor; TitleExtractor; EntityExtractor; MarvinMetadataExtractor;
   SummaryExtractor; QuestionsAnsweredExtractor; SentenceWindowNodeParser;
   HierarchicalNodeParser; CodeNodeParser; SentenceAwareNodeParser;
   TokenAwareNodeParser; HtmlNodeParser; MarkdownNodeParser; JsonNodeParser;
   SimpleFileNodeParser; OpenAiEmbedding; HuggingFaceEmbedding].

(** ** Notions used by the statements *)

Section Notions.
Context {X : Collaborators}.

(** The default each field is documented to have, as a computation of a new
    value: "resolve a default language-model handle", "resolve a default
    embedding", "construct an empty callback dispatcher", the tokenizer
    factory, "a standard sentence-based splitter", a prompt helper "derived
    from the model's metadata" when a model is there and "a parameterless
    default" otherwise, and "a single-element sequence containing the
    current node parser". *)
Definition documented_default (f : field) : M loc :=
  match f with
  | F_llm => extern (call_resolve_llm "default") (resolve_llm "default")
  | F_embed_model =>
      extern (call_resolve_embed_model "default")
             (resolve_embed_model "default")
  | F_callback_manager => extern call_CallbackManager CallbackManager
  | F_tokenizer => extern call_get_tokenizer get_tokenizer
  | F_node_parser => extern call_SentenceSplitter SentenceSplitter
  | F_prompt_helper =>
      m ← rd F_llm;
      match m with
      | Some l =>
          md ← getattr (VRef l) "metadata";
          extern (call_PromptHelper_from_llm_metadata md)
                 (PromptHelper_from_llm_metadata md)
      | None => extern call_PromptHelper PromptHelper
      end
  | F_transformations => p ← node_parser; new_list [p]
  end.

(** The state once [d] has been stored in field [f]. *)
Definition cache (f : field) (d : loc) (s : state) : state :=
  mkState (assign f (Some d) (self s)) (env s) (trace s).

End Notions.

(** The free functions [<field>_from_settings_or_context] of the module. *)
Inductive resolver :=
  | R_llm
  | R_embed_model
  | R_callback_manager
  | R_node_parser
  | R_prompt_helper
  | R_transformations.

#[global] Instance resolver_eq_dec : EqDecision resolver.
Proof. solve_decision. Defined.

#[global] Program Instance resolver_finite : Finite resolver :=
  {| enum := [R_llm; R_embed_model; R_callback_manager; R_node_parser;
              R_prompt_helper; R_transformations] |}.
Next Obligation. by apply (bool_decide_unpack _). Qed.
Next Obligation. intros []; set_solver. Qed.

(** The property of the facade a resolver falls back to. *)
Definition resolver_field (r : resolver) : field :=
  match r with
  | R_llm => F_llm
  | R_embed_model => F_embed_model
  | R_callback_manager => F_callback_manager
  | R_node_parser => F_node_parser
  | R_prompt_helper => F_prompt_helper
  | R_transformations => F_transformations
  end.

(** The attribute of the context a resolver reads. *)
Definition resolver_attr (r : resolver) : string :=
  match r with
  | R_llm => "llm"
  | R_embed_model => "embed_model"
  | R_callback_manager => "callback_manager"
  | R_node_parser => "node_parser"
  | R_prompt_helper => "prompt_helper"
  | R_transformations => "transformations"
  end.

Section MoreNotions.
Context {X : Collaborators}.

Definition resolve (r : resolver) (context : option loc) : M value :=
  match r with
  | R_llm => llm_from_settings_or_context context
  | R_embed_model => embed_model_from_settings_or_context context
  | R_callback_manager => callback_manager_from_settings_or_context context
  | R_node_parser => node_parser_from_settings_or_context context
  | R_prompt_helper => prompt_helper_from_settings_or_context context
  | R_transformations => transformations_from_settings_or_context context
  end.

(** The same access with [text_splitter] spelled [node_parser]. *)
Definition dealias (o : op) : op :=
  match o with
  | OpGetTextSplitter => OpGet F_node_parser
  | OpSetTextSplitter v => OpSet F_node_parser v
  | _ => o
  end.

(** What a getter/setter pair that goes through attribute [name] of the
    node parser does from state [s], where the node parser read from [s] is
    [p] and leaves state [s1]: it reads and writes the attribute of [p] when
    [p] has it, and raises [ValueError] with message [msg] when not. *)
Definition through_parser_attr (name msg : string)
    (get : M value) (set : Z → M unit) (s : state) (p : loc) (s1 : state)
  : Prop :=
  match lookup_attr (env s1) (VRef p) name with
  | Some x =>
      get s = (Ok x, s1)
      ∧ ∀ n, ∃ e2,
          store_attr (env s1) (VRef p) name (VInt n) = Some e2
          ∧ set n s = (Ok (), mkState (self s1) e2 (trace s1))
          ∧ lookup_attr e2 (VRef p) name = Some (VInt n)
  | None =>
      get s = (Raise (mkExn ValueError msg), s1)
      ∧ ∀ n, set n s = (Raise (mkExn ValueError msg), s1)
  end.

End MoreNotions.

(** [t] extends [t0] by calls that do not belong to the default rule of [f]. *)
Definition quiet (f : field) (t0 t : list call) : Prop :=
  ∃ new, t = t0 ++ new ∧ Forall (λ c, default_rule_of c ≠ Some f) new.

(** Computation [m] neither replaces a materialised field [f] nor makes a
    call of the default rule of [f]. *)
Definition keeps (f : field) {A} (m : M A) : Prop :=
  ∀ s v, slot f (self s) = Some v →
    slot f (self (m s).2) = Some v ∧ quiet f (trace s) (trace (m s).2).

(** [r] is an exception of class [c]. *)
Definition raises {A} (c : exn_class) (r : outcome A) : Prop :=
  ∃ msg, r = Raise (mkExn c msg).

(** ** Notions for the behaviour of whole accesses *)

(** The fields an access may assign to or materialise. *)
Definition footprint (o : op) : list field :=
  match o with
  | OpGet F_transformations => [F_node_parser; F_transformations]
  | OpGet f => [f]
  | OpSet f _ => [f]
  | OpGetPydanticProgramMode | OpSetPydanticProgramMode _ => [F_llm]
  | OpGetGlobalHandler | OpSetGlobalHandler _ => []
  | OpGetChunkSize | OpSetChunkSize _ => [F_node_parser]
  | OpGetChunkOverlap | OpSetChunkOverlap _ => [F_node_parser]
  | OpGetTextSplitter | OpSetTextSplitter _ => [F_node_parser]
  | OpGetNumOutput | OpSetNumOutput _ => [F_prompt_helper]
  | OpGetContextWindow | OpSetContextWindow _ => [F_prompt_helper]
  end.

(** Whether an access assigns [None] to field [f]. *)
Definition resets (o : op) (f : field) : bool :=
  match o with
  | OpSet g None => bool_decide (g = f)
  | OpSetTextSplitter None => bool_decide (f = F_node_parser)
  | _ => false
  end.

(** The accesses that read a property. *)
Definition is_read (o : op) : bool :=
  match o with
  | OpGet _ | OpGetPydanticProgramMode | OpGetGlobalHandler | OpGetChunkSize
  | OpGetChunkOverlap | OpGetTextSplitter | OpGetNumOutput
  | OpGetContextWindow => true
  | _ => false
  end.

(** Computation [m] changes no field outside [F]. *)
Definition frames (F : list field) {A} (m : M A) : Prop :=
  ∀ s f, f ∉ F → slot f (self (m s).2) = slot f (self s).

(** Running [m] a second time, in the state the first run left, gives the
    same outcome and changes nothing. *)
Definition idempotent {A} (m : M A) : Prop :=
  ∀ s r s1, m s = (r, s1) → m s1 = (r, s1).

(** For an assignment: the read of the same property, and the value that
    was assigned.  Two kinds of assignment have no entry: [None] assigned to
    a field (or to [text_splitter]), which makes the field absent, and the
    assignment to [global_handler], whose setter hands a mode to
    [set_global_handler] while its getter reads the package global. *)
Definition written (o : op) : option (op * value) :=
  match o with
  | OpSet f (Some v) => Some (OpGet f, VRef v)
  | OpSetPydanticProgramMode mode => Some (OpGetPydanticProgramMode, mode)
  | OpSetChunkSize n => Some (OpGetChunkSize, VInt n)
  | OpSetChunkOverlap n => Some (OpGetChunkOverlap, VInt n)
  | OpSetTextSplitter (Some v) => Some (OpGetTextSplitter, VRef v)
  | OpSetNumOutput n => Some (OpGetNumOutput, VInt n)
  | OpSetContextWindow n => Some (OpGetContextWindow, VInt n)
  | _ => None
  end.

(** An assignment and the read of the other attribute of the same object. *)
Definition sibling (w r : op) : bool :=
  match w, r with
  | OpSetChunkSize _, OpGetChunkOverlap => true
  | OpSetChunkOverlap _, OpGetChunkSize => true
  | OpSetNumOutput _, OpGetContextWindow => true
  | OpSetContextWindow _, OpGetNumOutput => true
  | _, _ => false
  end.

(** The calls an access can make: the default rules of the fields of its
    footprint, [set_global_tokenizer] for an assignment to [tokenizer] and
    [set_global_handler] for an assignment to [global_handler], each with the
    value assigned. *)
Definition allowed_call (o : op) (c : call) : Prop :=
  match c with
  | call_set_global_tokenizer t =>
      ∃ v, o = OpSet F_tokenizer v ∧ t = to_value v
  | call_set_global_handler mode => o = OpSetGlobalHandler mode
  | _ => ∃ g, default_rule_of c = Some g ∧ g ∈ footprint o
  end.

(** Computation [m] only adds calls, each satisfying [P]. *)
Definition calls_only (P : call → Prop) {A} (m : M A) : Prop :=
  ∀ s, ∃ new, trace (m s).2 = trace s ++ new ∧ Forall P new.

(** For a derived setter: the field whose object it writes to, and the read
    of the same attribute. *)
Definition carrier (w : op) : option (field * op) :=
  match w with
  | OpSetPydanticProgramMode _ => Some (F_llm, OpGetPydanticProgramMode)
  | OpSetChunkSize _ => Some (F_node_parser, OpGetChunkSize)
  | OpSetChunkOverlap _ => Some (F_node_parser, OpGetChunkOverlap)
  | OpSetNumOutput _ => Some (F_prompt_helper, OpGetNumOutput)
  | OpSetContextWindow _ => Some (F_prompt_helper, OpGetContextWindow)
  | _ => None
  end.

(** ** Basic facts about the record and the monad *)

Lemma slot_assign_eq (f : field) (v : option loc) (r : _Settings) :
  slot f (assign f v r) = v.
Proof. by destruct f. Qed.

Lemma slot_assign_ne (f g : field) (v : option loc) (r : _Settings) :
  f ≠ g → slot g (assign f v r) = slot g r.
Proof. by destruct f, g. Qed.

Lemma assign_slot_id (f : field) (r : _Settings) (v : option loc) :
  slot f r = v → assign f v r = r.
Proof. intros <-. by destruct f, r. Qed.

Lemma assign_assign (f : field) (v w : option loc) (r : _Settings) :
  assign f w (assign f v r) = assign f w r.
Proof. by destruct f. Qed.

Lemma state_eta (s : state) : mkState (self s) (env s) (trace s) = s.
Proof. by destruct s. Qed.

Lemma bind_Ok {A B} (m : M A) (k : A → M B) (s s1 : state) (a : A) :
  m s = (Ok a, s1) → (m ≫= k) s = k a s1.
Proof. intros H. unfold mbind, M_bind. by rewrite H. Qed.

Lemma bind_Raise {A B} (m : M A) (k : A → M B) (s s1 : state) (e : exn) :
  m s = (Raise e, s1) → (m ≫= k) s = (Raise e, s1).
Proof. intros H. unfold mbind, M_bind. by rewrite H. Qed.

(** An attribute that can be read can be written, and is then read back. *)
Lemma store_attr_Some (e : Env) (v : value) (name : string) (x : value) :
  is_Some (lookup_attr e v name) →
  ∃ e2, store_attr e v name x = Some e2 ∧ lookup_attr e2 v name = Some x.
Proof.
  destruct v as [| | |l]; simpl; try by intros [? ?].
  destruct (heap e !! l) as [[a|items]|]; simpl; try by intros [? ?].
  intros _. eexists. split; [reflexivity|]. simpl.
  rewrite lookup_insert_eq. simpl. by rewrite lookup_insert_eq.
Qed.

(** A write changes no other attribute of the object and no other object. *)
Lemma store_attr_other (e e2 : Env) (v w : value) (name other : string)
    (x : value) :
  store_attr e v name x = Some e2 →
  (w, other) ≠ (v, name) →
  lookup_attr e2 w other = lookup_attr e w other.
Proof.
  destruct v as [| | |l]; simpl; try done.
  destruct (heap e !! l) as [[a|items]|] eqn:Hl; simpl; try done.
  intros [= <-] Hne. destruct w as [| | |k]; simpl; try done.
  destruct (decide (l = k)) as [->|Hlk].
  - rewrite lookup_insert_eq, Hl. simpl.
    rewrite lookup_insert_ne; [done | congruence].
  - by rewrite lookup_insert_ne.
Qed.

Lemma fresh_loc_unused (e : Env) : heap e !! fresh_loc e = None.
Proof. unfold fresh_loc. apply (not_elem_of_dom (D:=gset loc)), is_fresh. Qed.

(** Unfolds the primitives of the monad in the goal. *)
Ltac run_M :=
  unfold mbind, M_bind, mret, M_ret, rd, wr, extern, extern_, hasattr,
    getattr, setattr, raise, new_list, read_global_handler;
  simpl.

Section FacadeFacts.
Context {X : Collaborators}.

(** A cached field is handed back as it is: the state, and with it the
    list of calls made, does not change. *)
Lemma lazy_default_cached f c body s l :
  slot f (self s) = Some l →
  lazy_default f c body s = (Ok (VRef l), s).
Proof.
  intros H. unfold lazy_default; run_M.
  rewrite H. simpl. by rewrite H.
Qed.

(** An absent field is filled by one call and cached. *)
Lemma lazy_default_absent f c body s :
  slot f (self s) = None →
  lazy_default f c body s =
    (Ok (VRef (body (env s)).1),
     mkState (assign f (Some (body (env s)).1) (self s))
             (body (env s)).2 (trace s ++ [c])).
Proof.
  intros H. unfold lazy_default; run_M.
  rewrite H. destruct (body (env s)) as [l e]. simpl.
  by rewrite slot_assign_eq.
Qed.

Lemma lazy_default_total f c body s :
  ∃ l s1, lazy_default f c body s = (Ok (VRef l), s1)
          ∧ slot f (self s1) = Some l.
Proof.
  destruct (slot f (self s)) as [l|] eqn:H.
  - exists l, s. by rewrite (lazy_default_cached _ _ _ _ l).
  - eexists _, _. rewrite lazy_default_absent by done.
    split; [done|]. simpl. by rewrite slot_assign_eq.
Qed.

End FacadeFacts.

Section Laziness.
Context {X : Collaborators}.

Lemma prompt_helper_cached s p :
  _prompt_helper (self s) = Some p →
  prompt_helper s = (Ok (VRef p), s).
Proof.
  intros H. unfold prompt_helper; run_M.
  rewrite H. destruct (_llm (self s)); simpl; by rewrite H.
Qed.

Lemma transformations_cached s l :
  _transformations (self s) = Some l →
  transformations s = (Ok (VRef l), s).
Proof.
  intros H. unfold transformations; run_M.
  rewrite H. simpl. by rewrite H.
Qed.

Lemma getter_cached f s l :
  slot f (self s) = Some l → getter f s = (Ok (VRef l), s).
Proof.
  destruct f; simpl; intros H;
    first [ by apply lazy_default_cached
          | by apply prompt_helper_cached
          | by apply transformations_cached ].
Qed.

Lemma prompt_helper_from_metadata s l md :
  _llm (self s) = Some l →
  _prompt_helper (self s) = None →
  lookup_attr (env s) (VRef l) "metadata" = Some md →
  prompt_helper s =
    (Ok (VRef (PromptHelper_from_llm_metadata md (env s)).1),
     mkState (assign F_prompt_helper
                     (Some (PromptHelper_from_llm_metadata md (env s)).1)
                     (self s))
             (PromptHelper_from_llm_metadata md (env s)).2
             (trace s ++ [call_PromptHelper_from_llm_metadata md])).
Proof.
  intros Hl Hp Hmd.
  unfold prompt_helper; run_M.
  rewrite Hl, Hp. simpl in Hmd |- *. rewrite Hmd.
  destruct (PromptHelper_from_llm_metadata md (env s)). simpl.
  by rewrite Hl.
Qed.

Lemma prompt_helper_parameterless s :
  _llm (self s) = None →
  _prompt_helper (self s) = None →
  prompt_helper s =
    (Ok (VRef (PromptHelper (env s)).1),
     mkState (assign F_prompt_helper (Some (PromptHelper (env s)).1) (self s))
             (PromptHelper (env s)).2
             (trace s ++ [call_PromptHelper])).
Proof.
  intros Hl Hp.
  unfold prompt_helper; run_M.
  rewrite Hl, Hp. destruct (PromptHelper (env s)). simpl. by rewrite Hl.
Qed.

Lemma transformations_absent s :
  _transformations (self s) = None →
  ∃ p s1, node_parser s = (Ok (VRef p), s1)
    ∧ _node_parser (self s1) = Some p
    ∧ transformations s =
        (Ok (VRef (fresh_loc (env s1))),
         mkState (assign F_transformations (Some (fresh_loc (env s1)))
                         (self s1))
                 (with_heap (<[fresh_loc (env s1) := Lst [VRef p]]>
                               (heap (env s1))) (env s1))
                 (trace s1 ++ [call_list_display [VRef p]])).
Proof.
  intros H.
  destruct (lazy_default_total F_node_parser call_SentenceSplitter
              SentenceSplitter s) as (p & s1 & Hnp & Hslot).
  exists p, s1. split; [exact Hnp|]. split; [exact Hslot|].
  change (slot F_transformations (self s) = None) in H.
  unfold transformations, mbind, M_bind, rd. rewrite H. cbv beta iota.
  unfold node_parser. rewrite Hnp. by run_M.
Qed.

End Laziness.

(** ** Lazy defaults and the get/set laws *)

Section Laws.
Context {X : Collaborators}.

Lemma extern_run c body s :
  extern c body s =
    (Ok (body (env s)).1,
     mkState (self s) (body (env s)).2 (trace s ++ [c])).
Proof. unfold extern. by destruct (body (env s)). Qed.

(** C3.  A field that is still absent is materialised by its first read with
    the default documented for it, and the value is cached: a second read
    returns the same reference and leaves the whole state, calls made
    included, as it was.  (For the prompt helper with a model present, the
    model must have its [metadata].) *)
Theorem first_read_materialises_default_then_caches
    (f : field) (s : state) :
  slot f (self s) = None →
  (f = F_prompt_helper → ∀ l, _llm (self s) = Some l →
     is_Some (lookup_attr (env s) (VRef l) "metadata")) →
  ∃ d s1,
    documented_default f s = (Ok d, s1) ∧
    getter f s = (Ok (VRef d), cache f d s1) ∧
    getter f (cache f d s1) = (Ok (VRef d), cache f d s1).
Proof.
  intros Hnone Hmd.
  assert (Hagain : ∀ d s1,
            getter f (cache f d s1) = (Ok (VRef d), cache f d s1)).
  { intros d s1. apply getter_cached. simpl. apply slot_assign_eq. }
  destruct f;
    try (eexists _, _; split; [apply extern_run|]; split; [|apply Hagain];
         unfold getter, llm, embed_model, callback_manager, tokenizer,
           node_parser;
         by rewrite lazy_default_absent).
  - (* prompt helper *)
    simpl in Hnone. destruct (_llm (self s)) as [l|] eqn:Hl.
    + destruct (Hmd eq_refl l eq_refl) as [md Hlook].
      eexists _, _. split; [|split; [|apply Hagain]].
      * unfold documented_default, mbind, M_bind, rd, getattr. simpl.
        rewrite Hl. simpl in Hlook. rewrite Hlook. apply extern_run.
      * simpl. by rewrite (prompt_helper_from_metadata s l md).
    + eexists _, _. split; [|split; [|apply Hagain]].
      * unfold documented_default, mbind, M_bind, rd. simpl.
        rewrite Hl. apply extern_run.
      * simpl. by rewrite prompt_helper_parameterless.
  - (* transformations *)
    destruct (transformations_absent s Hnone) as (p & s1 & Hnp & _ & Htr).
    eexists _, _. split; [|split; [|apply Hagain]].
    + unfold documented_default, mbind, M_bind. rewrite Hnp.
      unfold new_list. reflexivity.
    + simpl. by rewrite Htr.
Qed.

(** C4, as the code has it.  After [F = v] with [v] an object (any value
    but [None]), reading [F] returns [v] itself; the read changes nothing,
    and no call belonging to a default rule is made on the way. *)
Theorem set_then_get_returns_the_set_value
    (f : field) (v : loc) (s : state) :
  ∃ s1 new,
    setter f (Some v) s = (Ok (), s1) ∧
    trace s1 = trace s ++ new ∧
    Forall (λ c, default_rule_of c = None) new ∧
    getter f s1 = (Ok (VRef v), s1).
Proof.
  assert (Hplain : ∀ g, setter g (Some v) s = (Ok (), cache g v s) →
            ∃ s1 new,
              setter g (Some v) s = (Ok (), s1) ∧ trace s1 = trace s ++ new ∧
              Forall (λ c, default_rule_of c = None) new ∧
              getter g s1 = (Ok (VRef v), s1)).
  { intros g Hg. exists (cache g v s), []. split; [exact Hg|].
    split; [by rewrite app_nil_r|]. split; [constructor|].
    apply getter_cached. simpl. apply slot_assign_eq. }
  destruct f; try (by apply Hplain).
  eexists _, [_]. split; [reflexivity|]. split; [reflexivity|].
  split; [by repeat constructor|].
  by apply (getter_cached F_tokenizer).
Qed.

(** C1.  With no helper cached yet: if the model is set first, the first
    read of [prompt_helper] builds the helper from that model's metadata;
    if no model is there, it builds the parameterless default.  Either way
    the helper stays: setting the model afterwards and reading again gives
    the same helper, with no further call. *)
Theorem prompt_helper_choice_is_permanent
    (s : state) (l l' : loc) (md : value) :
  _prompt_helper (self s) = None →
  lookup_attr (env s) (VRef l) "metadata" = Some md →
  (∃ p s1,
     (set_llm (Some l);; prompt_helper) s = (Ok (VRef p), s1)
     ∧ PromptHelper_from_llm_metadata md (env s) = (p, env s1)
     ∧ trace s1 = trace s ++ [call_PromptHelper_from_llm_metadata md]
     ∧ (set_llm (Some l');; prompt_helper) s1
       = (Ok (VRef p), cache F_llm l' s1))
  ∧ (_llm (self s) = None →
     ∃ p s1,
       prompt_helper s = (Ok (VRef p), s1)
       ∧ PromptHelper (env s) = (p, env s1)
       ∧ trace s1 = trace s ++ [call_PromptHelper]
       ∧ (set_llm (Some l);; prompt_helper) s1
         = (Ok (VRef p), cache F_llm l s1)).
Proof.
  intros Hp Hmd.
  assert (Hkeep : ∀ (s1 : state) p m,
            _prompt_helper (self s1) = Some p →
            (set_llm (Some m);; prompt_helper) s1
            = (Ok (VRef p), cache F_llm m s1)).
  { intros s1 p m H. unfold set_llm.
    erewrite bind_Ok by reflexivity.
    by apply prompt_helper_cached. }
  split.
  - eexists _, _. split.
    + unfold set_llm. erewrite bind_Ok by reflexivity.
      by apply (prompt_helper_from_metadata _ l md).
    + simpl. split; [by destruct (PromptHelper_from_llm_metadata md (env s))|].
      split; [reflexivity|]. by apply Hkeep.
  - intros Hl. eexists _, _. split; [by apply prompt_helper_parameterless|].
    simpl. split; [by destruct (PromptHelper (env s))|].
    split; [reflexivity|]. by apply Hkeep.
Qed.

(** A model that was materialised by a read of [llm] counts as set: the
    helper read next is built from the metadata of the default model. *)
Lemma prompt_helper_after_llm_read (s : state) (md : value) :
  _llm (self s) = None →
  _prompt_helper (self s) = None →
  lookup_attr (resolve_llm "default" (env s)).2
              (VRef (resolve_llm "default" (env s)).1) "metadata" = Some md →
  ∃ s1, (llm;; prompt_helper) s =
          (Ok (VRef (PromptHelper_from_llm_metadata md
                       (resolve_llm "default" (env s)).2).1), s1).
Proof.
  intros Hl Hp Hmd. eexists.
  unfold llm. erewrite bind_Ok by by apply lazy_default_absent.
  erewrite (prompt_helper_from_metadata _ _ md);
    [reflexivity | reflexivity | exact Hp | exact Hmd].
Qed.

(** C6.  With no transformations cached, the first read returns a new
    one-element list holding the node parser of that moment (the cached
    one, or the default it materialises); an assignment then replaces the
    list as a whole. *)
Theorem transformations_default_is_current_node_parser (s : state) :
  _transformations (self s) = None →
  ∃ p s1 l s2,
    node_parser s = (Ok (VRef p), s1)
    ∧ (∀ q, _node_parser (self s) = Some q → p = q ∧ s1 = s)
    ∧ transformations s = (Ok (VRef l), s2)
    ∧ heap (env s1) !! l = None
    ∧ heap (env s2) !! l = Some (Lst [VRef p])
    ∧ _transformations (self s2) = Some l
    ∧ _node_parser (self s2) = Some p
    ∧ (∀ v, (set_transformations (Some v);; transformations) s2 =
              (Ok (VRef v), cache F_transformations v s2)).
Proof.
  intros Hnone.
  destruct (transformations_absent s Hnone) as (p & s1 & Hnp & Hslot & Htr).
  exists p, s1. eexists _, _. split; [exact Hnp|]. split.
  { intros q Hq. unfold node_parser in Hnp.
    rewrite (lazy_default_cached _ _ _ _ q) in Hnp by done.
    by injection Hnp as -> ->. }
  split; [exact Htr|]. split; [apply fresh_loc_unused|].
  split; [simpl; apply lookup_insert_eq|]. split; [reflexivity|].
  split; [exact Hslot|].
  intros v. unfold set_transformations. erewrite bind_Ok by reflexivity.
  by apply transformations_cached.
Qed.

End Laws.

(** C4 as stated fails for the value [None]: with a node parser in place,
    [node_parser = None] succeeds and leaves the field absent, and the read
    that follows does not return [None]: it calls [SentenceSplitter()] and
    returns the new object. *)
Lemma assigned_None_is_not_read_back :
  let s := Demo.start_with_plain_parser in
  let s1 := (setter (X:=Demo.collaborators) F_node_parser None s).2 in
  _node_parser (self s) = Some 1%positive
  ∧ setter (X:=Demo.collaborators) F_node_parser None s = (Ok (), s1)
  ∧ (getter (X:=Demo.collaborators) F_node_parser s1).1 = Ok (VRef 2%positive)
  ∧ (getter (X:=Demo.collaborators) F_node_parser s1).1 ≠ Ok (to_value None)
  ∧ trace (getter (X:=Demo.collaborators) F_node_parser s1).2
    = trace s1 ++ [call_SentenceSplitter].
Proof.
  split; [reflexivity|]. split; [reflexivity|]. split; [by vm_compute|].
  split; [by vm_compute|]. by vm_compute.
Qed.

(** ** Chunk size and chunk overlap *)

Section Chunking.
Context {X : Collaborators}.

Lemma node_parser_total s :
  ∃ p s1, node_parser s = (Ok (VRef p), s1)
          ∧ _node_parser (self s1) = Some p.
Proof. apply (lazy_default_total F_node_parser). Qed.

(** The four accessors have one shape; only the attribute name and the
    message differ. *)
Lemma parser_attr_get name msg s p s1 :
  node_parser s = (Ok (VRef p), s1) →
  _node_parser (self s1) = Some p →
  (r ← node_parser;
   b ← hasattr r name;
   if b : bool then q ← node_parser; getattr q name
   else raise ValueError msg) s =
  match lookup_attr (env s1) (VRef p) name with
  | Some x => (Ok x, s1)
  | None => (Raise (mkExn ValueError msg), s1)
  end.
Proof.
  intros Hnp Hslot.
  erewrite bind_Ok by exact Hnp.
  erewrite bind_Ok by reflexivity.
  destruct (lookup_attr (env s1) (VRef p) name) as [x|] eqn:Hlook.
  - rewrite bool_decide_eq_true_2 by eauto.
    erewrite bind_Ok by by apply (lazy_default_cached F_node_parser).
    unfold getattr. by rewrite Hlook.
  - rewrite bool_decide_eq_false_2 by (intros [? ?]; congruence).
    reflexivity.
Qed.

Lemma parser_attr_set name msg n s p s1 :
  node_parser s = (Ok (VRef p), s1) →
  _node_parser (self s1) = Some p →
  (r ← node_parser;
   b ← hasattr r name;
   if b : bool then q ← node_parser; setattr q name (VInt n)
   else raise ValueError msg) s =
  match lookup_attr (env s1) (VRef p) name with
  | Some _ => setattr (VRef p) name (VInt n) s1
  | None => (Raise (mkExn ValueError msg), s1)
  end.
Proof.
  intros Hnp Hslot.
  erewrite bind_Ok by exact Hnp.
  erewrite bind_Ok by reflexivity.
  destruct (lookup_attr (env s1) (VRef p) name) as [x|] eqn:Hlook.
  - rewrite bool_decide_eq_true_2 by eauto.
    erewrite bind_Ok by by apply (lazy_default_cached F_node_parser).
    reflexivity.
  - rewrite bool_decide_eq_false_2 by (intros [? ?]; congruence).
    reflexivity.
Qed.

Lemma through_parser_attr_intro name msg get set s p s1 :
  node_parser s = (Ok (VRef p), s1) →
  _node_parser (self s1) = Some p →
  get = (r ← node_parser;
         b ← hasattr r name;
         if b : bool then q ← node_parser; getattr q name
         else raise ValueError msg) →
  (∀ n, set n = (r ← node_parser;
                 b ← hasattr r name;
                 if b : bool then q ← node_parser; setattr q name (VInt n)
                 else raise ValueError msg)) →
  through_parser_attr name msg get set s p s1.
Proof.
  intros Hnp Hslot -> Hset. unfold through_parser_attr.
  pose proof (parser_attr_get name msg s p s1 Hnp Hslot) as Hg.
  destruct (lookup_attr (env s1) (VRef p) name) as [x|] eqn:Hlook.
  - split; [exact Hg|]. intros n.
    destruct (store_attr_Some (env s1) (VRef p) name (VInt n))
      as (e2 & Hstore & Hread); [eauto|].
    exists e2. split; [exact Hstore|]. split; [|exact Hread].
    rewrite Hset, (parser_attr_set name msg n s p s1 Hnp Hslot), Hlook.
    unfold setattr. by rewrite Hstore.
  - split; [exact Hg|]. intros n.
    rewrite Hset, (parser_attr_set name msg n s p s1 Hnp Hslot).
    by rewrite Hlook.
Qed.

(** C2, as the code has it.  In every state the accessors first read the
    node parser (materialising the default one if needed).  When that
    parser has the attribute, the getter returns its value and the setter
    stores the new value in the parser object itself; when it lacks the
    attribute, getter and setter raise [ValueError] with the message of the
    module, and the state is the one the read of the node parser left. *)
Theorem chunk_accessors_go_through_parser_or_raise_ValueError (s : state) :
  ∃ p s1,
    node_parser s = (Ok (VRef p), s1)
    ∧ through_parser_attr "chunk_size"
        "Configured node parser does not have chunk size."
        chunk_size set_chunk_size s p s1
    ∧ through_parser_attr "chunk_overlap"
        "Configured node parser does not have chunk overlap."
        chunk_overlap set_chunk_overlap s p s1.
Proof.
  destruct (node_parser_total s) as (p & s1 & Hnp & Hslot).
  exists p, s1. split; [exact Hnp|].
  split; by apply through_parser_attr_intro.
Qed.

End Chunking.

(** C2 as stated fails: on a parser without [chunk_size] the getter raises
    [ValueError], which is not an [UnsupportedOperation]. *)
Lemma chunk_size_failure_is_not_UnsupportedOperation :
  lookup_attr (env Demo.start_with_plain_parser)
              (to_value (_node_parser (self Demo.start_with_plain_parser)))
              "chunk_size" = None
  ∧ (chunk_size (X:=Demo.collaborators) Demo.start_with_plain_parser).1 =
      Raise (mkExn ValueError
                   "Configured node parser does not have chunk size.")
  ∧ ¬ raises UnsupportedOperation
        (chunk_size (X:=Demo.collaborators) Demo.start_with_plain_parser).1.
Proof.
  split; [by vm_compute|]. split; [by vm_compute|].
  intros [msg H]. vm_compute in H. discriminate H.
Qed.

(** ** The fallback helpers *)

Section Fallback.
Context {X : Collaborators}.

(** C5, as the code has it.  The module has six helpers.  Each returns the
    attribute of the context when a context is given, whatever the facade
    holds and without touching it, and the property of the facade (with its
    lazy default) when the context is [None]. *)
Theorem six_resolvers_prefer_the_context :
  card resolver = 6%nat
  ∧ ∀ (r : resolver) (s : state),
      (∀ c, resolve r (Some c) s = getattr (VRef c) (resolver_attr r) s)
      ∧ (∀ c x, lookup_attr (env s) (VRef c) (resolver_attr r) = Some x →
                resolve r (Some c) s = (Ok x, s))
      ∧ resolve r None s = getter (resolver_field r) s.
Proof.
  split; [reflexivity|]. intros r s.
  assert (Hctx : ∀ c, resolve r (Some c) s
                      = getattr (VRef c) (resolver_attr r) s)
    by by destruct r.
  split; [exact Hctx|]. split; [|by destruct r].
  intros c x Hx. rewrite Hctx. unfold getattr. by rewrite Hx.
Qed.

End Fallback.

(** C5 as stated fails on the count: the helpers are not five. *)
Lemma resolvers_are_not_five : card resolver ≠ 5%nat.
Proof. by vm_compute. Qed.

(** ** Setters and the alias *)

Section Setters.
Context {X : Collaborators}.

(** C9.  Every field setter stores the value in its field, be it an object or
    [None].  The setter of [tokenizer] also calls [set_global_tokenizer] with
    the value, which acts on the state outside the record; the setter of any
    other field leaves that state and the list of calls as they were. *)
Theorem only_tokenizer_setter_calls_set_global_tokenizer
    (f : field) (v : option loc) (s : state) :
  setter f v s =
    (Ok (),
     mkState (assign f v (self s))
             (if decide (f = F_tokenizer)
              then set_global_tokenizer (to_value v) (env s) else env s)
             (trace s ++ (if decide (f = F_tokenizer)
                          then [call_set_global_tokenizer (to_value v)]
                          else []))).
Proof.
  destruct f; simpl; unfold set_llm, set_embed_model, set_callback_manager,
    set_tokenizer, set_node_parser, set_prompt_helper, set_transformations;
    run_M; by rewrite ?app_nil_r.
Qed.

Lemma run_dealias (os : list op) (s : state) :
  run (map dealias os) s = run os s.
Proof.
  revert s. induction os as [|o os IH]; intros s; [reflexivity|].
  simpl. rewrite IH. by destruct o.
Qed.

(** C10.  [text_splitter] is [node_parser] under another name: the getters
    are the same computation, the setters are the same computation, and a
    program that uses the one name ends in the same state as the program
    that uses the other. *)
Theorem text_splitter_is_an_alias_of_node_parser :
  (∀ s, text_splitter s = node_parser s)
  ∧ (∀ v s, set_text_splitter v s = set_node_parser v s)
  ∧ (∀ o s, exec o s = exec (dealias o) s)
  ∧ (∀ os s, run os s = run (map dealias os) s).
Proof.
  split; [done|]. split; [done|]. split; [by intros []|].
  intros os s. by rewrite run_dealias.
Qed.

End Setters.

(** With the sample collaborators the call does change the global. *)
Example set_tokenizer_changes_global :
  global_tokenizer
    (env (setter (X:=Demo.collaborators) F_tokenizer (Some 7%positive)
                 Demo.start).2)
  = VRef 7%positive
  ∧ global_tokenizer
      (env (setter (X:=Demo.collaborators) F_llm (Some 7%positive)
                   Demo.start).2)
    = VNone.
Proof. by vm_compute. Qed.

(** ** Materialised fields are stable *)

Lemma quiet_refl f t : quiet f t t.
Proof. exists []. split; [by rewrite app_nil_r | constructor]. Qed.

Lemma quiet_trans f t1 t2 t3 : quiet f t1 t2 → quiet f t2 t3 → quiet f t1 t3.
Proof.
  intros (n1 & -> & H1) (n2 & -> & H2). exists (n1 ++ n2).
  split; [by rewrite app_assoc | by apply Forall_app].
Qed.

Lemma quiet_snoc f t c : default_rule_of c ≠ Some f → quiet f t (t ++ [c]).
Proof. intros H. exists [c]. split; [done | by repeat constructor]. Qed.

Lemma keeps_unchanged f {A} (m : M A) :
  (∀ s, (m s).2 = s) → keeps f m.
Proof. intros H s v Hs. rewrite H. split; [done | apply quiet_refl]. Qed.

Lemma keeps_bind f {A B} (m : M A) (k : A → M B) :
  keeps f m → (∀ a, keeps f (k a)) → keeps f (m ≫= k).
Proof.
  intros Hm Hk s v Hs. destruct (Hm s v Hs) as [Hm1 Hm2].
  unfold mbind, M_bind. destruct (m s) as [[a|e] s1]; simpl in *.
  - destruct (Hk a s1 v Hm1) as [Hk1 Hk2].
    split; [done | by eapply quiet_trans].
  - done.
Qed.

Lemma keeps_ret f {A} (a : A) : keeps f (mret a).
Proof. by apply keeps_unchanged. Qed.

Lemma keeps_raise f {A} c msg : keeps f (raise (A:=A) c msg).
Proof. by apply keeps_unchanged. Qed.

Lemma keeps_hasattr f v name : keeps f (hasattr v name).
Proof. by apply keeps_unchanged. Qed.

Lemma keeps_getattr f v name : keeps f (getattr v name).
Proof.
  apply keeps_unchanged. intros s. unfold getattr.
  by destruct (lookup_attr (env s) v name).
Qed.

Lemma keeps_setattr f v name x : keeps f (setattr v name x).
Proof.
  intros s w Hs. unfold setattr.
  destruct (store_attr (env s) v name x); (split; [done | apply quiet_refl]).
Qed.

Lemma keeps_read_global_handler f : keeps f read_global_handler.
Proof. by apply keeps_unchanged. Qed.

Lemma keeps_wr f g v : g ≠ f → keeps f (wr g v).
Proof.
  intros Hne s w Hs. simpl.
  split; [by rewrite slot_assign_ne | apply quiet_refl].
Qed.

Lemma keeps_extern_ f c body :
  default_rule_of c ≠ Some f → keeps f (extern_ c body).
Proof. intros Hc s w Hs. simpl. split; [done | by apply quiet_snoc]. Qed.

Section Stability.
Context {X : Collaborators}.

Lemma keeps_lazy_default f g c body :
  default_rule_of c = Some g → keeps f (lazy_default g c body).
Proof.
  intros Hc s v Hs.
  destruct (slot g (self s)) as [l|] eqn:Hg.
  - rewrite (lazy_default_cached _ _ _ _ l) by done.
    split; [done | apply quiet_refl].
  - rewrite lazy_default_absent by done. simpl.
    assert (g ≠ f) by congruence.
    split; [by rewrite slot_assign_ne|].
    apply quiet_snoc. congruence.
Qed.

Lemma keeps_node_parser f : keeps f node_parser.
Proof. by apply keeps_lazy_default. Qed.

Lemma keeps_llm f : keeps f llm.
Proof. by apply keeps_lazy_default. Qed.

Lemma keeps_prompt_helper f : keeps f prompt_helper.
Proof.
  intros s v Hs.
  destruct (_prompt_helper (self s)) as [p|] eqn:Hp.
  { rewrite (prompt_helper_cached s p) by done.
    split; [done | apply quiet_refl]. }
  assert (F_prompt_helper ≠ f) by (intros <-; simpl in Hs; congruence).
  destruct (_llm (self s)) as [l|] eqn:Hl.
  - destruct (lookup_attr (env s) (VRef l) "metadata") as [md|] eqn:Hmd.
    + rewrite (prompt_helper_from_metadata s l md) by done. cbn [snd self trace].
      split; [by rewrite slot_assign_ne|].
      apply quiet_snoc. simpl. congruence.
    + unfold prompt_helper; run_M. rewrite Hl, Hp.
      simpl in Hmd. rewrite Hmd. simpl.
      split; [done | apply quiet_refl].
  - rewrite prompt_helper_parameterless by done. cbn [snd self trace].
    split; [by rewrite slot_assign_ne|].
    apply quiet_snoc. simpl. congruence.
Qed.

Lemma keeps_transformations f : keeps f transformations.
Proof.
  intros s v Hs.
  destruct (_transformations (self s)) as [l|] eqn:Ht.
  { rewrite (transformations_cached s l) by done.
    split; [done | apply quiet_refl]. }
  assert (F_transformations ≠ f) by (intros <-; simpl in Hs; congruence).
  destruct (transformations_absent s Ht) as (p & s1 & Hnp & _ & ->).
  destruct (keeps_node_parser f s v Hs) as [H1 H2].
  rewrite Hnp in H1, H2. cbn [snd self trace] in *.
  split; [by rewrite slot_assign_ne|].
  eapply quiet_trans; [exact H2|]. apply quiet_snoc. simpl. congruence.
Qed.

Lemma keeps_getter f g : keeps f (getter g).
Proof.
  destruct g; simpl;
    first [ by apply keeps_lazy_default
          | apply keeps_prompt_helper
          | apply keeps_transformations ].
Qed.

Lemma keeps_setter f g v : g ≠ f → keeps f (setter g v).
Proof.
  intros Hne.
  destruct g; simpl; try (by apply keeps_wr).
  apply keeps_bind; [by apply keeps_wr|].
  intros _. by apply keeps_extern_.
Qed.

Lemma keeps_done_ f (m : M unit) : keeps f m → keeps f (done_ m).
Proof. intros H. apply keeps_bind; [done|]. intros. apply keeps_ret. Qed.

Lemma keeps_parser_get f name msg :
  keeps f (r ← node_parser;
           b ← hasattr r name;
           if b : bool then q ← node_parser; getattr q name
           else raise ValueError msg).
Proof.
  apply keeps_bind; [apply keeps_node_parser|]. intros r.
  apply keeps_bind; [apply keeps_hasattr|]. intros [].
  - apply keeps_bind; [apply keeps_node_parser|]. intros q.
    apply keeps_getattr.
  - apply keeps_raise.
Qed.

Lemma keeps_parser_set f name msg x :
  keeps f (r ← node_parser;
           b ← hasattr r name;
           if b : bool then q ← node_parser; setattr q name x
           else raise ValueError msg).
Proof.
  apply keeps_bind; [apply keeps_node_parser|]. intros r.
  apply keeps_bind; [apply keeps_hasattr|]. intros [].
  - apply keeps_bind; [apply keeps_node_parser|]. intros q.
    apply keeps_setattr.
  - apply keeps_raise.
Qed.

(** One access that does not assign to [f] keeps [f]. *)
Lemma keeps_exec f o : assigns o f = false → keeps f (exec o).
Proof.
  intros Ha. destruct o; simpl in *.
  - apply keeps_getter.
  - apply keeps_done_, keeps_setter. by apply bool_decide_eq_false in Ha.
  - apply keeps_bind; [apply keeps_llm|]. intros. apply keeps_getattr.
  - apply keeps_done_, keeps_bind; [apply keeps_llm|].
    intros. apply keeps_setattr.
  - apply keeps_read_global_handler.
  - by apply keeps_done_, keeps_extern_.
  - apply keeps_parser_get.
  - apply keeps_done_, keeps_parser_set.
  - apply keeps_parser_get.
  - apply keeps_done_, keeps_parser_set.
  - apply keeps_node_parser.
  - apply keeps_done_, (keeps_setter f F_node_parser).
    apply bool_decide_eq_false in Ha. congruence.
  - apply keeps_bind; [apply keeps_prompt_helper|]. intros.
    apply keeps_getattr.
  - apply keeps_done_, keeps_bind; [apply keeps_prompt_helper|].
    intros. apply keeps_setattr.
  - apply keeps_bind; [apply keeps_prompt_helper|]. intros.
    apply keeps_getattr.
  - apply keeps_done_, keeps_bind; [apply keeps_prompt_helper|].
    intros. apply keeps_setattr.
Qed.

(** C7.  Once a field holds a value, any sequence of accesses to the facade
    that contains no assignment to that field (reads of every property,
    assignments to the other fields, the derived setters) leaves the value
    in place and makes no call of that field's default rule. *)
Theorem materialised_field_changes_only_by_assignment
    (f : field) (v : loc) (os : list op) (s : state) :
  slot f (self s) = Some v →
  Forall (λ o, assigns o f = false) os →
  slot f (self (run os s)) = Some v
  ∧ quiet f (trace s) (trace (run os s)).
Proof.
  intros Hs Hos. revert s Hs.
  induction Hos as [|o os Ho _ IH]; intros s Hs; simpl.
  - split; [done | apply quiet_refl].
  - destruct (keeps_exec f o Ho s v Hs) as [H1 H2].
    destruct (IH _ H1) as [H3 H4].
    split; [done | by eapply quiet_trans].
Qed.

End Stability.

(** ** The theorems at work on the sample collaborators *)

Lemma first_read_witness :
  let s := cache F_llm Demo.user_model Demo.start_with_user_llm in
  slot F_prompt_helper (self s) = None
  ∧ ∃ d s1,
      documented_default (X:=Demo.collaborators) F_prompt_helper s = (Ok d, s1)
      ∧ getter (X:=Demo.collaborators) F_prompt_helper s
        = (Ok (VRef d), cache F_prompt_helper d s1)
      ∧ getter (X:=Demo.collaborators) F_prompt_helper
               (cache F_prompt_helper d s1)
        = (Ok (VRef d), cache F_prompt_helper d s1).
Proof.
  intros s. split; [reflexivity|].
  apply (first_read_materialises_default_then_caches
           (X:=Demo.collaborators) F_prompt_helper s); [reflexivity|].
  intros _ l Hl. vm_compute in Hl. injection Hl as <-.
  vm_compute. eauto.
Defined.

Lemma prompt_helper_choice_witness :
  let s := Demo.start_with_user_llm in
  (∃ p s1,
     (set_llm (Some Demo.user_model);;
      prompt_helper (X:=Demo.collaborators)) s
       = (Ok (VRef p), s1)
     ∧ (set_llm (Some 9%positive);;
        prompt_helper (X:=Demo.collaborators)) s1
       = (Ok (VRef p), cache F_llm 9%positive s1))
  ∧ (∃ p s1,
       prompt_helper (X:=Demo.collaborators) s = (Ok (VRef p), s1)
       ∧ (set_llm (Some Demo.user_model);;
          prompt_helper (X:=Demo.collaborators)) s1
         = (Ok (VRef p), cache F_llm Demo.user_model s1)).
Proof.
  intros s.
  destruct (prompt_helper_choice_is_permanent (X:=Demo.collaborators)
              s Demo.user_model 9%positive (VRef 1%positive))
    as [A B]; [reflexivity | by vm_compute |].
  split.
  - destruct A as (p & s1 & H1 & _ & _ & H2). by exists p, s1.
  - destruct (B eq_refl) as (p & s1 & H1 & _ & _ & H2). by exists p, s1.
Defined.

Lemma transformations_default_witness :
  ∃ p s1 l s2,
    node_parser (X:=Demo.collaborators) Demo.start = (Ok (VRef p), s1)
    ∧ transformations (X:=Demo.collaborators) Demo.start = (Ok (VRef l), s2)
    ∧ heap (env s2) !! l = Some (Lst [VRef p]).
Proof.
  destruct (transformations_default_is_current_node_parser
              (X:=Demo.collaborators) Demo.start eq_refl)
    as (p & s1 & l & s2 & H1 & _ & H2 & _ & H3 & _).
  by exists p, s1, l, s2.
Defined.

Lemma six_resolvers_witness :
  resolve (X:=Demo.collaborators) R_llm (Some Demo.context_ref)
          Demo.start_with_user_context
  = (Ok (VRef 1%positive), Demo.start_with_user_context).
Proof.
  destruct (six_resolvers_prefer_the_context (X:=Demo.collaborators))
    as [_ H].
  destruct (H R_llm Demo.start_with_user_context) as (_ & Hctx & _).
  apply Hctx. by vm_compute.
Defined.

Lemma materialised_field_witness :
  let s := (exec (X:=Demo.collaborators) (OpGet F_prompt_helper) Demo.start).2 in
  let os := [OpSet F_llm (Some 9%positive); OpGet F_prompt_helper;
             OpGet F_transformations; OpSetChunkSize 256; OpGetNumOutput;
             OpSetTextSplitter (Some 9%positive)] in
  slot F_prompt_helper (self s) = Some 1%positive
  ∧ slot F_prompt_helper (self (run (X:=Demo.collaborators) os s))
    = Some 1%positive
  ∧ quiet F_prompt_helper (trace s) (trace (run (X:=Demo.collaborators) os s)).
Proof.
  intros s os. split; [by vm_compute|].
  apply (materialised_field_changes_only_by_assignment
           (X:=Demo.collaborators) F_prompt_helper 1%positive os s).
  - by vm_compute.
  - repeat constructor.
Defined.

(** ** The union *)

(** The union has seventeen members, each listed once, and every class is
    one of them. *)
Lemma union_members :
  length ConfiguredTransformationItemComponentOne = 17%nat
  ∧ NoDup ConfiguredTransformationItemComponentOne
  ∧ ∀ c, c ∈ ConfiguredTransformationItemComponentOne.
Proof.
  split; [reflexivity|]. split; [by apply (bool_decide_unpack _)|].
  intros []; unfold ConfiguredTransformationItemComponentOne; set_solver.
Qed.

(** ** What an access leaves alone *)

Lemma frames_self {A} (F : list field) (m : M A) :
  (∀ s, self (m s).2 = self s) → frames F m.
Proof. intros H s f _. by rewrite H. Qed.

Lemma frames_bind {A B} (F : list field) (m : M A) (k : A → M B) :
  frames F m → (∀ a, frames F (k a)) → frames F (m ≫= k).
Proof.
  intros Hm Hk s f Hf. specialize (Hm s f Hf).
  unfold mbind, M_bind. destruct (m s) as [[a|e] s1]; simpl in *.
  - by rewrite (Hk a s1 f Hf).
  - done.
Qed.

Lemma frames_wr (F : list field) (g : field) (v : option loc) :
  g ∈ F → frames F (wr g v).
Proof.
  intros Hg s f Hf. simpl. apply slot_assign_ne. by intros ->.
Qed.

Lemma frames_getattr F v name : frames F (getattr v name).
Proof.
  apply frames_self. intros s. unfold getattr.
  by destruct (lookup_attr (env s) v name).
Qed.

Lemma frames_setattr F v name x : frames F (setattr v name x).
Proof.
  apply frames_self. intros s. unfold setattr.
  by destruct (store_attr (env s) v name x).
Qed.

Lemma frames_extern F c body : frames F (extern c body).
Proof.
  apply frames_self. intros s. unfold extern. by destruct (body (env s)).
Qed.

Section Frame.
Context {X : Collaborators}.

Lemma frames_lazy_default F g c body :
  g ∈ F → frames F (lazy_default g c body).
Proof.
  intros Hg. unfold lazy_default.
  apply frames_bind; [by apply frames_self|]. intros cur.
  apply frames_bind.
  - destruct cur; [by apply frames_self|].
    apply frames_bind; [apply frames_extern|]. intros. by apply frames_wr.
  - intros _. apply frames_bind; [|intros]; by apply frames_self.
Qed.

Lemma frames_prompt_helper F :
  F_prompt_helper ∈ F → frames F prompt_helper.
Proof.
  intros Hg. unfold prompt_helper.
  apply frames_bind; [by apply frames_self|]. intros m.
  apply frames_bind; [by apply frames_self|]. intros h.
  apply frames_bind.
  - destruct m, h; try by apply frames_self.
    + apply frames_bind; [apply frames_getattr|]. intros md.
      apply frames_bind; [apply frames_extern|]. intros. by apply frames_wr.
    + apply frames_bind; [apply frames_extern|]. intros. by apply frames_wr.
  - intros _. apply frames_bind; [|intros]; by apply frames_self.
Qed.

Lemma frames_transformations F :
  F_node_parser ∈ F → F_transformations ∈ F → frames F transformations.
Proof.
  intros Hn Ht. unfold transformations.
  apply frames_bind; [by apply frames_self|]. intros cur.
  apply frames_bind.
  - destruct cur; [by apply frames_self|].
    apply frames_bind; [by apply frames_lazy_default|]. intros p.
    apply frames_bind; [by apply frames_self|]. intros. by apply frames_wr.
  - intros _. apply frames_bind; [|intros]; by apply frames_self.
Qed.

Lemma frames_parser_access {A} F name (k : value → M A) (e : M A) :
  F_node_parser ∈ F → (∀ q, frames F (k q)) → frames F e →
  frames F (r ← node_parser;
            b ← hasattr r name;
            if b : bool then q ← node_parser; k q else e).
Proof.
  intros Hn Hk He.
  apply frames_bind; [by apply frames_lazy_default|]. intros r.
  apply frames_bind; [by apply frames_self|]. intros [].
  - apply frames_bind; [by apply frames_lazy_default|]. done.
  - done.
Qed.

Lemma frames_exec (o : op) : frames (footprint o) (exec o).
Proof.
  destruct o as [f|f v| | | | | | | | | | | | | | ]; simpl.
  - destruct f; simpl;
      first [ apply frames_lazy_default; set_solver
            | apply frames_prompt_helper; set_solver
            | apply frames_transformations; set_solver ].
  - apply frames_bind; [|intros; by apply frames_self].
    destruct f; simpl; apply frames_wr; set_solver.
  - apply frames_bind; [apply frames_lazy_default; set_solver|].
    intros. apply frames_getattr.
  - apply frames_bind; [|intros; by apply frames_self].
    apply frames_bind; [apply frames_lazy_default; set_solver|].
    intros. apply frames_setattr.
  - by apply frames_self.
  - by apply frames_self.
  - apply frames_parser_access;
      [set_solver | intros; apply frames_getattr | by apply frames_self].
  - apply frames_bind; [|intros; by apply frames_self].
    apply frames_parser_access;
      [set_solver | intros; apply frames_setattr | by apply frames_self].
  - apply frames_parser_access;
      [set_solver | intros; apply frames_getattr | by apply frames_self].
  - apply frames_bind; [|intros; by apply frames_self].
    apply frames_parser_access;
      [set_solver | intros; apply frames_setattr | by apply frames_self].
  - apply frames_lazy_default; set_solver.
  - apply frames_bind; [|intros; by apply frames_self].
    apply frames_wr; set_solver.
  - apply frames_bind; [apply frames_prompt_helper; set_solver|].
    intros. apply frames_getattr.
  - apply frames_bind; [|intros; by apply frames_self].
    apply frames_bind; [apply frames_prompt_helper; set_solver|].
    intros. apply frames_setattr.
  - apply frames_bind; [apply frames_prompt_helper; set_solver|].
    intros. apply frames_getattr.
  - apply frames_bind; [|intros; by apply frames_self].
    apply frames_bind; [apply frames_prompt_helper; set_solver|].
    intros. apply frames_setattr.
Qed.

(** X1.  An access changes only the fields of its footprint, whether they
    hold a value or not: a read of a plain field touches that field alone, a
    read of [transformations] touches it and [_node_parser], the chunk
    accessors and [text_splitter] touch [_node_parser], [num_output] and
    [context_window] touch [_prompt_helper], [pydantic_program_mode] touches
    [_llm], [global_handler] touches nothing.  So a read of [prompt_helper]
    never materialises the model, and a sequence of accesses leaves alone
    every field that is in none of their footprints. *)
Theorem accesses_change_only_their_footprint
    (f : field) (os : list op) (s : state) :
  Forall (λ o, f ∉ footprint o) os →
  slot f (self (run os s)) = slot f (self s).
Proof.
  intros Hos. revert s.
  induction Hos as [|o os Ho _ IH]; intros s; simpl; [done|].
  rewrite IH. by apply frames_exec.
Qed.

End Frame.

(** ** Reading twice *)

Lemma getattr_state v name s : (getattr v name s).2 = s.
Proof. unfold getattr. by destruct (lookup_attr (env s) v name). Qed.

Lemma idempotent_then_getattr (m : M value) (name : string) :
  idempotent m → idempotent (o ← m; getattr o name).
Proof.
  intros Hm s r s1. unfold mbind, M_bind.
  destruct (m s) as [[a|e] s0] eqn:Hs.
  - intros H. assert (s1 = s0) as ->.
    { pose proof (getattr_state a name s0) as Hg. by rewrite H in Hg. }
    by rewrite (Hm _ _ _ Hs).
  - intros [= <- <-]. by rewrite (Hm _ _ _ Hs).
Qed.

Section Rereading.
Context {X : Collaborators}.

(** A model without [metadata] gives no helper: the read fails and caches
    nothing. *)
Lemma prompt_helper_no_metadata s l :
  _llm (self s) = Some l →
  _prompt_helper (self s) = None →
  lookup_attr (env s) (VRef l) "metadata" = None →
  prompt_helper s = (Raise (mkExn AttributeError "metadata"), s).
Proof.
  intros Hl Hp Hmd. unfold prompt_helper; run_M.
  rewrite Hl, Hp. simpl in Hmd. by rewrite Hmd.
Qed.

Lemma idempotent_lazy_default f c body : idempotent (lazy_default f c body).
Proof.
  intros s r s1 H. destruct (slot f (self s)) as [l|] eqn:Hf.
  - rewrite (lazy_default_cached _ _ _ _ l) in H by done.
    injection H as <- <-. by apply lazy_default_cached.
  - rewrite lazy_default_absent in H by done. injection H as <- <-.
    apply lazy_default_cached. simpl. apply slot_assign_eq.
Qed.

Lemma idempotent_prompt_helper : idempotent prompt_helper.
Proof.
  intros s r s1 H. destruct (_prompt_helper (self s)) as [p|] eqn:Hp.
  { rewrite (prompt_helper_cached s p) in H by done.
    injection H as <- <-. by apply prompt_helper_cached. }
  destruct (_llm (self s)) as [l|] eqn:Hl.
  - destruct (lookup_attr (env s) (VRef l) "metadata") as [md|] eqn:Hmd.
    + rewrite (prompt_helper_from_metadata s l md) in H by done.
      injection H as <- <-. by apply prompt_helper_cached.
    + rewrite (prompt_helper_no_metadata s l) in H by done.
      injection H as <- <-. by apply (prompt_helper_no_metadata s l).
  - rewrite prompt_helper_parameterless in H by done.
    injection H as <- <-. by apply prompt_helper_cached.
Qed.

Lemma idempotent_transformations : idempotent transformations.
Proof.
  intros s r s1 H. destruct (_transformations (self s)) as [l|] eqn:Ht.
  - rewrite (transformations_cached s l) in H by done.
    injection H as <- <-. by apply transformations_cached.
  - destruct (transformations_absent s Ht) as (p & s0 & _ & _ & Htr).
    rewrite Htr in H. injection H as <- <-. by apply transformations_cached.
Qed.

Lemma idempotent_parser_get name msg :
  idempotent (r ← node_parser;
              b ← hasattr r name;
              if b : bool then q ← node_parser; getattr q name
              else raise ValueError msg).
Proof.
  intros s r s1 H.
  destruct (node_parser_total s) as (p & s0 & Hnp & Hslot).
  rewrite (parser_attr_get name msg s p s0 Hnp Hslot) in H.
  assert (Hnp0 : node_parser s0 = (Ok (VRef p), s0))
    by exact (lazy_default_cached F_node_parser _ _ s0 p Hslot).
  assert (s1 = s0) as ->
    by (destruct (lookup_attr (env s0) (VRef p) name); by injection H).
  by rewrite (parser_attr_get name msg s0 p s0 Hnp0 Hslot).
Qed.

(** X2.  Every read of a property is idempotent: repeated in the state the
    first read left, it gives the same outcome (the same object, value or
    exception) and changes nothing: no field, no object, no further call. *)
Theorem reads_are_idempotent (o : op) (s s1 : state) (r : outcome value) :
  is_read o = true →
  exec o s = (r, s1) →
  exec o s1 = (r, s1).
Proof.
  intros Hread. destruct o as [f| | | | | | | | | | | | | | | ];
    try discriminate Hread; simpl.
  - destruct f; simpl;
      first [ apply idempotent_lazy_default
            | apply idempotent_prompt_helper
            | apply idempotent_transformations ].
  - apply idempotent_then_getattr, idempotent_lazy_default.
  - by intros [= <- <-].
  - apply idempotent_parser_get.
  - apply idempotent_parser_get.
  - apply idempotent_lazy_default.
  - apply idempotent_then_getattr, idempotent_prompt_helper.
  - apply idempotent_then_getattr, idempotent_prompt_helper.
Qed.

End Rereading.

(** ** A field becomes absent only by an assignment of None *)

Section Presence.
Context {X : Collaborators}.

Lemma exec_keeps_presence (f : field) (o : op) (s : state) :
  resets o f = false →
  is_Some (slot f (self s)) →
  is_Some (slot f (self (exec o s).2)).
Proof.
  intros Hr [v Hv]. destruct (assigns o f) eqn:Ha.
  - destruct o as [|g [l|]| | | | | | | | | |[l|]| | | | ];
      simpl in Ha, Hr; try congruence.
    + apply bool_decide_eq_true in Ha as ->. exists l. by destruct f.
    + apply bool_decide_eq_true in Ha as ->. by exists l.
  - destruct (keeps_exec f o Ha s v Hv) as [H _]. eauto.
Qed.

(** X4.  A field becomes absent only by an assignment of [None] to it.
    Over any sequence of accesses in which [None] is not assigned to the
    field (directly, or through [text_splitter] for the node parser), a
    field that holds a value still holds one at the end: reads, derived
    setters, assignments to other fields and assignments of objects to the
    field itself never clear it. *)
Theorem field_stays_unless_None_is_assigned
    (f : field) (os : list op) (s : state) :
  is_Some (slot f (self s)) →
  Forall (λ o, resets o f = false) os →
  is_Some (slot f (self (run os s))).
Proof.
  intros Hs Hos. revert s Hs.
  induction Hos as [|o os Ho _ IH]; intros s Hs; simpl; [done|].
  apply IH. by apply exec_keeps_presence.
Qed.

End Presence.

(** ** Assignments are read back *)

Lemma store_attr_lookup (e e2 : Env) (v : value) (name : string) (x : value) :
  store_attr e v name x = Some e2 → lookup_attr e2 v name = Some x.
Proof.
  destruct v as [| | |l]; simpl; try done.
  destruct (heap e !! l) as [[a|items]|]; simpl; try done.
  intros [= <-]. simpl. rewrite lookup_insert_eq. simpl.
  by rewrite lookup_insert_eq.
Qed.

Lemma setattr_Ok v name x s s1 :
  setattr v name x s = (Ok (), s1) →
  ∃ e2, store_attr (env s) v name x = Some e2
        ∧ s1 = mkState (self s) e2 (trace s).
Proof.
  unfold setattr. destruct (store_attr (env s) v name x) as [e2|]; [|done].
  intros [= <-]. eauto.
Qed.

Lemma done_Ok (m : M unit) s r s1 :
  done_ m s = (Ok r, s1) → m s = (Ok (), s1).
Proof.
  unfold done_, mbind, M_bind. destruct (m s) as [[[]|e] s0]; [|done].
  by intros [= _ <-].
Qed.

Section ReadBack.
Context {X : Collaborators}.

Lemma lazy_default_result f c body s r s0 :
  lazy_default f c body s = (r, s0) →
  ∃ l, r = Ok (VRef l) ∧ slot f (self s0) = Some l.
Proof.
  intros H. destruct (lazy_default_total f c body s) as (l & s1 & Hl & Hs).
  rewrite Hl in H. injection H as <- <-. eauto.
Qed.

Lemma prompt_helper_result s a s0 :
  prompt_helper s = (Ok a, s0) →
  ∃ p, a = VRef p ∧ _prompt_helper (self s0) = Some p.
Proof.
  intros H. destruct (_prompt_helper (self s)) as [p|] eqn:Hp.
  { rewrite (prompt_helper_cached s p) in H by done.
    injection H as <- <-. eauto. }
  destruct (_llm (self s)) as [l|] eqn:Hl.
  - destruct (lookup_attr (env s) (VRef l) "metadata") as [md|] eqn:Hmd.
    + rewrite (prompt_helper_from_metadata s l md) in H by done.
      injection H as <- <-. eauto.
    + by rewrite (prompt_helper_no_metadata s l) in H.
  - rewrite prompt_helper_parameterless in H by done.
    injection H as <- <-. eauto.
Qed.

(** Writing an attribute of the object a cached field holds, then reading
    the attribute through the same field. *)
Lemma write_then_read_through (m : M value) name x s s1 :
  (∀ s a s0, m s = (Ok a, s0) →
     ∀ e t, m (mkState (self s0) e t) = (Ok a, mkState (self s0) e t)) →
  (o ← m; setattr o name x) s = (Ok (), s1) →
  (o ← m; getattr o name) s1 = (Ok x, s1).
Proof.
  intros Hm. unfold mbind, M_bind.
  destruct (m s) as [[a|e] s0] eqn:Hs; [|done].
  intros (e2 & Hstore & ->)%setattr_Ok.
  rewrite (Hm _ _ _ Hs). unfold getattr. cbn [env].
  by rewrite (store_attr_lookup _ _ _ _ _ Hstore).
Qed.

Lemma llm_stays s a s0 :
  llm s = (Ok a, s0) →
  ∀ e t, llm (mkState (self s0) e t) = (Ok a, mkState (self s0) e t).
Proof.
  intros (l & [= ->] & Hl)%lazy_default_result e t.
  by apply (lazy_default_cached F_llm).
Qed.

Lemma prompt_helper_stays s a s0 :
  prompt_helper s = (Ok a, s0) →
  ∀ e t, prompt_helper (mkState (self s0) e t)
         = (Ok a, mkState (self s0) e t).
Proof.
  intros (p & -> & Hp)%prompt_helper_result e t.
  by apply prompt_helper_cached.
Qed.

(** A successful write through the node parser: the parser, the state the
    read of the parser left, and the store after the write. *)
Lemma parser_set_Ok name msg n s s1 :
  (r ← node_parser;
   b ← hasattr r name;
   if b : bool then q ← node_parser; setattr q name (VInt n)
   else raise ValueError msg) s = (Ok (), s1) →
  ∃ p s0 e2,
    node_parser s = (Ok (VRef p), s0)
    ∧ _node_parser (self s0) = Some p
    ∧ store_attr (env s0) (VRef p) name (VInt n) = Some e2
    ∧ s1 = mkState (self s0) e2 (trace s0).
Proof.
  intros H. destruct (node_parser_total s) as (p & s0 & Hnp & Hslot).
  rewrite (parser_attr_set name msg n s p s0 Hnp Hslot) in H.
  destruct (lookup_attr (env s0) (VRef p) name); [|done].
  apply setattr_Ok in H as (e2 & Hstore & ->). by exists p, s0, e2.
Qed.

Lemma parser_get_at name msg s p :
  _node_parser (self s) = Some p →
  (r ← node_parser;
   b ← hasattr r name;
   if b : bool then q ← node_parser; getattr q name
   else raise ValueError msg) s =
  match lookup_attr (env s) (VRef p) name with
  | Some x => (Ok x, s)
  | None => (Raise (mkExn ValueError msg), s)
  end.
Proof.
  intros Hp. apply parser_attr_get; [|done].
  by apply (lazy_default_cached F_node_parser).
Qed.

Lemma parser_write_then_read name msg n s s1 :
  (r ← node_parser;
   b ← hasattr r name;
   if b : bool then q ← node_parser; setattr q name (VInt n)
   else raise ValueError msg) s = (Ok (), s1) →
  (r ← node_parser;
   b ← hasattr r name;
   if b : bool then q ← node_parser; getattr q name
   else raise ValueError msg) s1 = (Ok (VInt n), s1).
Proof.
  intros (p & s0 & e2 & _ & Hslot & Hstore & ->)%parser_set_Ok.
  rewrite (parser_get_at name msg _ p) by done. cbn [env].
  by rewrite (store_attr_lookup _ _ _ _ _ Hstore).
Qed.

(** X6.  An assigned value is what is read next.  For every assignment of
    an object to a field or to [text_splitter], and every assignment to a
    derived property ([pydantic_program_mode], [chunk_size], [chunk_overlap],
    [num_output], [context_window]): if it succeeds, the read of the same
    property in the state it left returns the assigned value and changes
    nothing.  Left out are [None] assigned to a field, after which the read
    computes the default, and the assignment to [global_handler]. *)
Theorem successful_assignment_is_read_back
    (w r : op) (x v : value) (s s1 : state) :
  written w = Some (r, x) →
  exec w s = (Ok v, s1) →
  exec r s1 = (Ok x, s1).
Proof.
  intros Hw Hx.
  destruct w as [|f [l|]| |mode| | | |n| |n| |[l|]| |n| |n]; simpl in Hw;
    try discriminate Hw; injection Hw as <- <-; simpl in *;
    apply done_Ok in Hx.
  - apply getter_cached.
    destruct f; simpl in *; unfold set_tokenizer in *;
      by injection Hx as <-.
  - by apply (write_then_read_through llm _ _ s), Hx; apply llm_stays.
  - by apply (parser_write_then_read _ _ _ s).
  - by apply (parser_write_then_read _ _ _ s).
  - apply (lazy_default_cached F_node_parser). by injection Hx as <-.
  - by apply (write_then_read_through prompt_helper _ _ s), Hx;
      apply prompt_helper_stays.
  - by apply (write_then_read_through prompt_helper _ _ s), Hx;
      apply prompt_helper_stays.
Qed.

End ReadBack.

(** ** Writes through one attribute and the objects that share it *)

Section WriteThrough.
Context {X : Collaborators}.

Lemma parser_sibling_kept name msg n other msg' s s1 :
  other ≠ name →
  (r ← node_parser;
   b ← hasattr r name;
   if b : bool then q ← node_parser; setattr q name (VInt n)
   else raise ValueError msg) s = (Ok (), s1) →
  ((r ← node_parser;
    b ← hasattr r other;
    if b : bool then q ← node_parser; getattr q other
    else raise ValueError msg') s1).1 =
  ((r ← node_parser;
    b ← hasattr r other;
    if b : bool then q ← node_parser; getattr q other
    else raise ValueError msg') s).1.
Proof.
  intros Hne (p & s0 & e2 & Hnp & Hslot & Hstore & ->)%parser_set_Ok.
  rewrite (parser_get_at other msg' _ p) by done.
  rewrite (parser_attr_get other msg' s p s0 Hnp Hslot). cbn [env].
  rewrite (store_attr_other _ _ _ (VRef p) _ other _ Hstore) by congruence.
  by destruct (lookup_attr (env s0) (VRef p) other).
Qed.

Lemma helper_sibling_kept name n other s s1 :
  other ≠ name →
  (o ← prompt_helper; setattr o name (VInt n)) s = (Ok (), s1) →
  ((o ← prompt_helper; getattr o other) s1).1 =
  ((o ← prompt_helper; getattr o other) s).1.
Proof.
  intros Hne. unfold mbind, M_bind.
  destruct (prompt_helper s) as [[a|e] s0] eqn:Hs; [|done].
  intros (e2 & Hstore & ->)%setattr_Ok.
  rewrite (prompt_helper_stays _ _ _ Hs). unfold getattr. cbn [env].
  rewrite (store_attr_other _ _ _ a _ other _ Hstore) by congruence.
  by destruct (lookup_attr (env s0) a other).
Qed.

(** X7.  A write through one attribute leaves the other attribute of the
    same object as it was: after a successful assignment to [chunk_size] a
    read of [chunk_overlap] gives what it would have given before (value or
    exception), and the same for [chunk_overlap] and [chunk_size], for
    [num_output] and [context_window], and for [context_window] and
    [num_output]. *)
Theorem write_leaves_sibling_attribute
    (w r : op) (v : value) (s s1 : state) :
  sibling w r = true →
  exec w s = (Ok v, s1) →
  (exec r s1).1 = (exec r s).1.
Proof.
  intros Hsib Hw.
  destruct w as [| | | | | | |n| |n| | | |n| |n]; try discriminate Hsib;
    destruct r; try discriminate Hsib; simpl in *; apply done_Ok in Hw.
  - by eapply parser_sibling_kept, Hw.
  - by eapply parser_sibling_kept, Hw.
  - by eapply helper_sibling_kept, Hw.
  - by eapply helper_sibling_kept, Hw.
Qed.

(** X8.  The default of [transformations] holds the node parser itself, not
    a copy: after the default list has been read, a successful assignment to
    [chunk_size] is seen through the list, whose one element is still the
    facade's node parser, now with the new chunk size. *)
Theorem chunk_size_write_is_seen_through_transformations
    (s s1 s2 : state) (l : loc) (n : Z) :
  _transformations (self s) = None →
  transformations s = (Ok (VRef l), s1) →
  set_chunk_size n s1 = (Ok (), s2) →
  ∃ p,
    heap (env s2) !! l = Some (Lst [VRef p])
    ∧ _node_parser (self s2) = Some p
    ∧ lookup_attr (env s2) (VRef p) "chunk_size" = Some (VInt n).
Proof.
  intros Hnone Htr Hset.
  destruct (transformations_absent s Hnone) as (p & s0 & _ & Hp & Htr').
  rewrite Htr' in Htr. injection Htr as <- <-.
  apply parser_set_Ok in Hset as (q & s3 & e2 & Hnp & Hq & Hstore & ->).
  unfold node_parser in Hnp.
  rewrite (lazy_default_cached F_node_parser _ _ _ p) in Hnp by exact Hp.
  injection Hnp as <- <-. exists p. cbn [env self].
  split; [|split; [exact Hp | by eapply store_attr_lookup]].
  simpl in Hstore.
  destruct (decide (fresh_loc (env s0) = p)) as [Heq|Hne].
  - rewrite Heq, lookup_insert_eq in Hstore. discriminate Hstore.
  - rewrite lookup_insert_ne in Hstore by done.
    destruct (heap (env s0) !! p) as [[a|items]|]; try discriminate Hstore.
    injection Hstore as <-. simpl.
    rewrite lookup_insert_ne by done. by rewrite lookup_insert_eq.
Qed.

(** X9.  The default of [transformations] is not recomputed when the node
    parser is replaced: after the default list has been read, an assignment
    to [node_parser] changes what [node_parser] returns, while
    [transformations] keeps returning the same list, which still holds the
    parser of before. *)
Theorem transformations_keep_the_replaced_node_parser
    (s s1 : state) (l q : loc) :
  _transformations (self s) = None →
  transformations s = (Ok (VRef l), s1) →
  ∃ p,
    node_parser s1 = (Ok (VRef p), s1)
    ∧ (set_node_parser (Some q);; node_parser) s1
      = (Ok (VRef q), cache F_node_parser q s1)
    ∧ (set_node_parser (Some q);; transformations) s1
      = (Ok (VRef l), cache F_node_parser q s1)
    ∧ heap (env (cache F_node_parser q s1)) !! l = Some (Lst [VRef p]).
Proof.
  intros Hnone Htr.
  destruct (transformations_absent s Hnone) as (p & s0 & _ & Hp & Htr').
  rewrite Htr' in Htr. injection Htr as <- <-. exists p.
  split; [by apply (lazy_default_cached F_node_parser)|].
  split; [by apply (lazy_default_cached F_node_parser)|].
  split; [by apply transformations_cached|].
  simpl. apply lookup_insert_eq.
Qed.

(** X10.  Which prompt helper is built depends on what was read before.
    From a state with neither model nor helper: a read of [prompt_helper]
    calls [PromptHelper()]; a read of [llm] followed by the read of
    [prompt_helper] calls [resolve_llm("default")] and then
    [PromptHelper.from_llm_metadata] on the metadata of the model that call
    returned. *)
Theorem reading_the_model_first_changes_the_helper
    (s : state) (md : value) :
  _llm (self s) = None →
  _prompt_helper (self s) = None →
  lookup_attr (resolve_llm "default" (env s)).2
              (VRef (resolve_llm "default" (env s)).1) "metadata" = Some md →
  (∃ s1, prompt_helper s = (Ok (VRef (PromptHelper (env s)).1), s1)
         ∧ trace s1 = trace s ++ [call_PromptHelper])
  ∧ (∃ s1, (llm;; prompt_helper) s =
             (Ok (VRef (PromptHelper_from_llm_metadata md
                          (resolve_llm "default" (env s)).2).1), s1)
           ∧ trace s1 = trace s ++ [call_resolve_llm "default";
                                    call_PromptHelper_from_llm_metadata md]).
Proof.
  intros Hl Hp Hmd. split.
  - eexists. by rewrite prompt_helper_parameterless.
  - eexists. unfold llm.
    erewrite bind_Ok by by apply lazy_default_absent.
    erewrite (prompt_helper_from_metadata _ _ md);
      [| reflexivity | exact Hp | exact Hmd].
    split; [reflexivity|]. cbn [trace]. by rewrite <- app_assoc.
Qed.

End WriteThrough.

(** ** The calls of each access *)

Lemma calls_only_same (P : call → Prop) {A} (m : M A) :
  (∀ s, trace (m s).2 = trace s) → calls_only P m.
Proof. intros H s. exists []. by rewrite H, app_nil_r. Qed.

Lemma calls_only_bind (P : call → Prop) {A B} (m : M A) (k : A → M B) :
  calls_only P m → (∀ a, calls_only P (k a)) → calls_only P (m ≫= k).
Proof.
  intros Hm Hk s. destruct (Hm s) as (n1 & Ht1 & H1).
  unfold mbind, M_bind. destruct (m s) as [[a|e] s1]; simpl in *.
  - destruct (Hk a s1) as (n2 & Ht2 & H2). exists (n1 ++ n2).
    rewrite Ht2, Ht1, app_assoc. split; [done | by apply Forall_app].
  - by exists n1.
Qed.

Lemma calls_only_extern (P : call → Prop) c body :
  P c → calls_only P (extern c body).
Proof.
  intros Hc s. exists [c]. unfold extern. destruct (body (env s)).
  split; [done | by repeat constructor].
Qed.

Lemma calls_only_extern_ (P : call → Prop) c body :
  P c → calls_only P (extern_ c body).
Proof. intros Hc s. exists [c]. split; [done | by repeat constructor]. Qed.

Lemma calls_only_getattr P v name : calls_only P (getattr v name).
Proof. apply calls_only_same. intros s. by rewrite getattr_state. Qed.

Lemma calls_only_setattr P v name x : calls_only P (setattr v name x).
Proof.
  apply calls_only_same. intros s. unfold setattr.
  by destruct (store_attr (env s) v name x).
Qed.

Lemma calls_only_done_ P (m : M unit) :
  calls_only P m → calls_only P (done_ m).
Proof.
  intros H. apply calls_only_bind; [done|]. intros. by apply calls_only_same.
Qed.

Section Calls.
Context {X : Collaborators}.

Lemma calls_only_lazy_default P f c body :
  P c → calls_only P (lazy_default f c body).
Proof.
  intros Hc. unfold lazy_default.
  apply calls_only_bind; [by apply calls_only_same|]. intros cur.
  apply calls_only_bind.
  - destruct cur; [by apply calls_only_same|].
    apply calls_only_bind; [by apply calls_only_extern|].
    intros. by apply calls_only_same.
  - intros _. apply calls_only_bind; [|intros]; by apply calls_only_same.
Qed.

Lemma calls_only_prompt_helper (P : call → Prop) :
  P call_PromptHelper →
  (∀ md, P (call_PromptHelper_from_llm_metadata md)) →
  calls_only P prompt_helper.
Proof.
  intros H0 H1. unfold prompt_helper.
  apply calls_only_bind; [by apply calls_only_same|]. intros m.
  apply calls_only_bind; [by apply calls_only_same|]. intros h.
  apply calls_only_bind.
  - destruct m, h; try by apply calls_only_same.
    + apply calls_only_bind; [apply calls_only_getattr|]. intros md.
      apply calls_only_bind; [by apply calls_only_extern|].
      intros. by apply calls_only_same.
    + apply calls_only_bind; [by apply calls_only_extern|].
      intros. by apply calls_only_same.
  - intros _. apply calls_only_bind; [|intros]; by apply calls_only_same.
Qed.

Lemma calls_only_transformations (P : call → Prop) :
  P call_SentenceSplitter →
  (∀ items, P (call_list_display items)) →
  calls_only P transformations.
Proof.
  intros H0 H1. unfold transformations.
  apply calls_only_bind; [by apply calls_only_same|]. intros cur.
  apply calls_only_bind.
  - destruct cur; [by apply calls_only_same|].
    apply calls_only_bind; [by apply calls_only_lazy_default|]. intros p.
    apply calls_only_bind.
    + intros s. exists [call_list_display [p]].
      split; [done | by repeat constructor].
    + intros. by apply calls_only_same.
  - intros _. apply calls_only_bind; [|intros]; by apply calls_only_same.
Qed.

Lemma calls_only_parser_access (P : call → Prop) {A} name
    (k : value → M A) (e : M A) :
  P call_SentenceSplitter →
  (∀ q, calls_only P (k q)) → calls_only P e →
  calls_only P (r ← node_parser;
                b ← hasattr r name;
                if b : bool then q ← node_parser; k q else e).
Proof.
  intros H0 Hk He.
  apply calls_only_bind; [by apply calls_only_lazy_default|]. intros r.
  apply calls_only_bind; [by apply calls_only_same|]. intros [].
  - apply calls_only_bind; [by apply calls_only_lazy_default|]. done.
  - done.
Qed.

(** X11.  The calls an access makes to imported code.  An access only adds
    to the calls made, and what it adds is: default rules of the fields of
    its footprint; [set_global_tokenizer], with the value assigned, for an
    assignment to [tokenizer] and for nothing else; [set_global_handler],
    with the mode assigned, for an assignment to [global_handler] and for
    nothing else.  So no read, and no derived setter, reaches either of the
    two global setters. *)
Theorem calls_of_each_access (o : op) (s : state) :
  ∃ new,
    trace (exec o s).2 = trace s ++ new
    ∧ Forall (allowed_call o) new.
Proof.
  revert s. change (calls_only (allowed_call o) (exec o)).
  assert (Hrule : ∀ (o : op) (c : call) (g : field),
            default_rule_of c = Some g → g ∈ footprint o →
            match c with
            | call_set_global_tokenizer _ | call_set_global_handler _ => False
            | _ => True
            end → allowed_call o c).
  { intros o' c g Hc Hg Hkind. destruct c; try done; by exists g. }
  destruct o as [f|f v| | | | | | | | | | | | | | ]; simpl.
  - destruct f; simpl;
      first [ apply calls_only_lazy_default
            | apply calls_only_prompt_helper; [|intros md]
            | apply calls_only_transformations; [|intros items] ];
      (eapply Hrule; [reflexivity | set_solver | done]).
  - apply calls_only_done_. destruct f; simpl;
      try (by apply calls_only_same).
    apply calls_only_bind; [by apply calls_only_same|]. intros.
    apply calls_only_extern_. simpl. eauto.
  - apply calls_only_bind; [|intros; apply calls_only_getattr].
    apply calls_only_lazy_default.
    eapply Hrule; [reflexivity | set_solver | done].
  - apply calls_only_done_, calls_only_bind;
      [|intros; apply calls_only_setattr].
    apply calls_only_lazy_default.
    eapply Hrule; [reflexivity | set_solver | done].
  - by apply calls_only_same.
  - apply calls_only_done_, calls_only_extern_. reflexivity.
  - apply calls_only_parser_access;
      [ eapply Hrule; [reflexivity | set_solver | done]
      | intros; apply calls_only_getattr | by apply calls_only_same ].
  - apply calls_only_done_, calls_only_parser_access;
      [ eapply Hrule; [reflexivity | set_solver | done]
      | intros; apply calls_only_setattr | by apply calls_only_same ].
  - apply calls_only_parser_access;
      [ eapply Hrule; [reflexivity | set_solver | done]
      | intros; apply calls_only_getattr | by apply calls_only_same ].
  - apply calls_only_done_, calls_only_parser_access;
      [ eapply Hrule; [reflexivity | set_solver | done]
      | intros; apply calls_only_setattr | by apply calls_only_same ].
  - apply calls_only_lazy_default.
    eapply Hrule; [reflexivity | set_solver | done].
  - apply calls_only_done_. by apply calls_only_same.
  - apply calls_only_bind; [|intros; apply calls_only_getattr].
    apply calls_only_prompt_helper; [|intros md];
      (eapply Hrule; [reflexivity | set_solver | done]).
  - apply calls_only_done_, calls_only_bind;
      [|intros; apply calls_only_setattr].
    apply calls_only_prompt_helper; [|intros md];
      (eapply Hrule; [reflexivity | set_solver | done]).
  - apply calls_only_bind; [|intros; apply calls_only_getattr].
    apply calls_only_prompt_helper; [|intros md];
      (eapply Hrule; [reflexivity | set_solver | done]).
  - apply calls_only_done_, calls_only_bind;
      [|intros; apply calls_only_setattr].
    apply calls_only_prompt_helper; [|intros md];
      (eapply Hrule; [reflexivity | set_solver | done]).
Qed.

End Calls.

(** ** The properties above on the sample collaborators *)

Lemma footprint_witness :
  let os := [OpGet F_prompt_helper; OpGetChunkSize; OpGet F_transformations;
             OpSetNumOutput 10; OpSet F_tokenizer (Some 9%positive)] in
  slot F_llm (self (run (X:=Demo.collaborators) os Demo.start))
  = slot F_llm (self Demo.start).
Proof.
  intros os.
  apply (accesses_change_only_their_footprint (X:=Demo.collaborators)).
  apply (bool_decide_unpack _). vm_compute. exact I.
Defined.

Lemma idempotent_read_witness :
  let s1 := (exec (X:=Demo.collaborators) OpGetChunkSize Demo.start).2 in
  exec (X:=Demo.collaborators) OpGetChunkSize s1 = (Ok (VInt 1024), s1).
Proof.
  intros s1.
  apply (reads_are_idempotent (X:=Demo.collaborators)
           OpGetChunkSize Demo.start s1); [reflexivity|].
  vm_compute. reflexivity.
Defined.

Lemma never_absent_witness :
  let s := (exec (X:=Demo.collaborators) (OpGet F_prompt_helper) Demo.start).2 in
  is_Some (slot F_prompt_helper
             (self (run (X:=Demo.collaborators)
                        [OpSet F_prompt_helper (Some 9%positive); OpGet F_llm;
                         OpGetNumOutput] s))).
Proof.
  intros s.
  apply (field_stays_unless_None_is_assigned (X:=Demo.collaborators)).
  - vm_compute. eauto.
  - repeat constructor.
Defined.

Lemma read_back_witness :
  let s1 := (exec (X:=Demo.collaborators) (OpSetChunkSize 256) Demo.start).2 in
  exec (X:=Demo.collaborators) OpGetChunkSize s1 = (Ok (VInt 256), s1).
Proof.
  intros s1.
  apply (successful_assignment_is_read_back (X:=Demo.collaborators)
           (OpSetChunkSize 256) OpGetChunkSize (VInt 256) VNone Demo.start s1);
    [reflexivity|].
  vm_compute. reflexivity.
Defined.

Lemma sibling_witness :
  let s1 := (exec (X:=Demo.collaborators) (OpSetChunkSize 256) Demo.start).2 in
  (exec (X:=Demo.collaborators) OpGetChunkOverlap s1).1
  = (exec (X:=Demo.collaborators) OpGetChunkOverlap Demo.start).1.
Proof.
  intros s1.
  apply (write_leaves_sibling_attribute (X:=Demo.collaborators)
           (OpSetChunkSize 256) OpGetChunkOverlap VNone Demo.start s1);
    [reflexivity|].
  vm_compute. reflexivity.
Defined.

Lemma seen_through_witness :
  let s1 := (transformations (X:=Demo.collaborators) Demo.start).2 in
  let s2 := (set_chunk_size (X:=Demo.collaborators) 256 s1).2 in
  ∃ p,
    heap (env s2) !! 2%positive = Some (Lst [VRef p])
    ∧ _node_parser (self s2) = Some p
    ∧ lookup_attr (env s2) (VRef p) "chunk_size" = Some (VInt 256).
Proof.
  intros s1 s2.
  apply (chunk_size_write_is_seen_through_transformations
           (X:=Demo.collaborators) Demo.start s1 s2 2%positive 256);
    [reflexivity | vm_compute; reflexivity | vm_compute; reflexivity].
Defined.

Lemma replaced_parser_witness :
  let s1 := (transformations (X:=Demo.collaborators) Demo.start).2 in
  ∃ p,
    node_parser (X:=Demo.collaborators) s1 = (Ok (VRef p), s1)
    ∧ (set_node_parser (Some 9%positive);;
       node_parser (X:=Demo.collaborators)) s1
      = (Ok (VRef 9%positive), cache F_node_parser 9%positive s1)
    ∧ (set_node_parser (Some 9%positive);;
       transformations (X:=Demo.collaborators)) s1
      = (Ok (VRef 2%positive), cache F_node_parser 9%positive s1)
    ∧ heap (env (cache F_node_parser 9%positive s1)) !! 2%positive
      = Some (Lst [VRef p]).
Proof.
  intros s1.
  apply (transformations_keep_the_replaced_node_parser
           (X:=Demo.collaborators) Demo.start s1 2%positive 9%positive);
    [reflexivity | vm_compute; reflexivity].
Defined.

Lemma helper_order_witness :
  (∃ s1, prompt_helper (X:=Demo.collaborators) Demo.start
         = (Ok (VRef 1%positive), s1)
         ∧ trace s1 = [call_PromptHelper])
  ∧ (∃ s1, (llm (X:=Demo.collaborators);;
            prompt_helper (X:=Demo.collaborators)) Demo.start
           = (Ok (VRef 3%positive), s1)
           ∧ trace s1 = [call_resolve_llm "default";
                         call_PromptHelper_from_llm_metadata (VRef 1%positive)]).
Proof.
  apply (reading_the_model_first_changes_the_helper
           (X:=Demo.collaborators) Demo.start (VRef 1%positive));
    [reflexivity | reflexivity | vm_compute; reflexivity].
Defined.

(** ** Derived values live in the object, not in the facade *)

Lemma replaced_object_keeps_its_own
    (m : M value) (f : field) (name : string) (x : value) (l l' : loc)
    (s s1 : state) :
  (∀ s l, slot f (self s) = Some l → m s = (Ok (VRef l), s)) →
  slot f (self s) = Some l →
  l' ≠ l →
  (o ← m; setattr o name x) s = (Ok (), s1) →
  ((o ← m; getattr o name) (cache f l' s1)).1
  = ((o ← m; getattr o name) (cache f l' s)).1.
Proof.
  intros Hm Hl Hne. unfold mbind, M_bind. rewrite (Hm s l Hl).
  intros (e2 & Hstore & ->)%setattr_Ok.
  rewrite !(Hm _ l') by (simpl; apply slot_assign_eq).
  unfold getattr. cbn [env cache].
  rewrite (store_attr_other _ _ _ (VRef l') _ name _ Hstore) by congruence.
  by destruct (lookup_attr (env s) (VRef l') name).
Qed.

Section Carriers.
Context {X : Collaborators}.

Lemma replaced_parser_keeps_its_own name msg n l l' s s1 :
  _node_parser (self s) = Some l →
  l' ≠ l →
  (r ← node_parser;
   b ← hasattr r name;
   if b : bool then q ← node_parser; setattr q name (VInt n)
   else raise ValueError msg) s = (Ok (), s1) →
  ((r ← node_parser;
    b ← hasattr r name;
    if b : bool then q ← node_parser; getattr q name
    else raise ValueError msg) (cache F_node_parser l' s1)).1
  = ((r ← node_parser;
      b ← hasattr r name;
      if b : bool then q ← node_parser; getattr q name
      else raise ValueError msg) (cache F_node_parser l' s)).1.
Proof.
  intros Hl Hne (p & s0 & e2 & Hnp & _ & Hstore & ->)%parser_set_Ok.
  unfold node_parser in Hnp.
  rewrite (lazy_default_cached F_node_parser _ _ _ l) in Hnp by exact Hl.
  injection Hnp as <- <-.
  rewrite !(parser_get_at name msg _ l') by reflexivity. cbn [env cache].
  rewrite (store_attr_other _ _ _ (VRef l') _ name _ Hstore) by congruence.
  by destruct (lookup_attr (env s) (VRef l') name).
Qed.

(** X12.  A derived value belongs to the object that is current when it is
    assigned.  With the field holding object [l]: after a successful
    assignment to [chunk_size], [chunk_overlap], [num_output],
    [context_window] or [pydantic_program_mode], replacing the node parser,
    prompt helper or model by another object [l'] makes the read of that
    property give what it gives for [l'] had the assignment not been made:
    the assigned value does not carry over. *)
Theorem derived_value_does_not_carry_over
    (w r : op) (f : field) (l l' : loc) (v : value) (s s1 : state) :
  carrier w = Some (f, r) →
  slot f (self s) = Some l →
  l' ≠ l →
  exec w s = (Ok v, s1) →
  (exec r (cache f l' s1)).1 = (exec r (cache f l' s)).1.
Proof.
  intros Hc Hl Hne Hw.
  destruct w as [| | |mode| | | |n| |n| | | |n| |n]; simpl in Hc;
    try discriminate Hc; injection Hc as <- <-; simpl in *;
    apply done_Ok in Hw.
  - eapply (replaced_object_keeps_its_own llm F_llm); [|done..].
    intros s' k Hk. by apply (lazy_default_cached F_llm).
  - by eapply replaced_parser_keeps_its_own.
  - by eapply replaced_parser_keeps_its_own.
  - eapply (replaced_object_keeps_its_own prompt_helper F_prompt_helper);
      [|done..].
    intros s' k Hk. by apply prompt_helper_cached.
  - eapply (replaced_object_keeps_its_own prompt_helper F_prompt_helper);
      [|done..].
    intros s' k Hk. by apply prompt_helper_cached.
Qed.

(** X13.  The fallback helpers are stable.  Called again in the state the
    first call left, a helper gives the same outcome and changes nothing;
    and when a context is given it never touches the state at all: no lazy
    default is materialised, not even when the context lacks the attribute
    (the outcome is then the [AttributeError], not the facade's value). *)
Theorem resolvers_are_stable
    (r : resolver) (context : option loc) (s s1 : state)
    (res : outcome value) :
  resolve r context s = (res, s1) →
  resolve r context s1 = (res, s1)
  ∧ (is_Some context → s1 = s).
Proof.
  intros H. destruct context as [c|].
  - assert (Hg : resolve r (Some c) s = getattr (VRef c) (resolver_attr r) s)
      by by destruct r.
    assert (s1 = s) as ->.
    { pose proof (getattr_state (VRef c) (resolver_attr r) s) as Hs.
      rewrite <- Hg, H in Hs. exact Hs. }
    done.
  - split; [|by intros [? ?]].
    destruct r; simpl in *;
      first [ by eapply idempotent_lazy_default
            | by eapply idempotent_prompt_helper
            | by eapply idempotent_transformations ].
Qed.

End Carriers.

Lemma carry_over_witness :
  let s := (exec (X:=Demo.collaborators) (OpGet F_node_parser)
                 Demo.start_with_plain_parser).2 in
  let s0 := (Demo.alloc (Obj {[ "chunk_size" := VInt 64 ]}) (env s)) in
  let s' := mkState (cache F_node_parser s0.1 s).(self) s0.2 [] in
  let s1 := (exec (X:=Demo.collaborators) (OpSetChunkSize 256) s').2 in
  (exec (X:=Demo.collaborators) OpGetChunkSize
        (cache F_node_parser 1%positive s1)).1
  = (exec (X:=Demo.collaborators) OpGetChunkSize
          (cache F_node_parser 1%positive s')).1.
Proof.
  intros s s0 s' s1.
  apply (derived_value_does_not_carry_over (X:=Demo.collaborators)
           (OpSetChunkSize 256) OpGetChunkSize F_node_parser
           2%positive 1%positive VNone s' s1);
    [reflexivity | reflexivity | done | vm_compute; reflexivity].
Defined.

Lemma stable_resolver_witness :
  let s := Demo.start_with_user_context in
  resolve (X:=Demo.collaborators) R_transformations (Some Demo.context_ref) s
  = (Ok (VRef 2%positive), s)
  ∧ (is_Some (Some Demo.context_ref) → s = s).
Proof.
  intros s.
  apply (resolvers_are_stable (X:=Demo.collaborators) R_transformations
           (Some Demo.context_ref) s s (Ok (VRef 2%positive))).
  vm_compute. reflexivity.
Defined.
